(** * Smart ingredient detection: a shallow embedding of the receipt pipeline

    Sources embedded here:
    - [lib/smartIngredientDetector.ts]: lexicon, line classifier, matcher,
      scorer, aggregator;
    - [lib/ocrService.ts]: OCR method selection and the mock keyword scan;
    - [components/IngredientConfirmationModal.tsx]: initialisation of the
      confirmation list, unit normalisation, validation and merge.

    Modelling conventions.
    - A JavaScript string is its list of UTF-16 code units ([jstr], a list of
      [N]).  ASCII literals are converted by [js]; non-ASCII code units are written as numbers.
    - A JavaScript number is an IEEE-754 binary64 value, modelled with the
      Standard Library's reference semantics [SpecFloat] (precision 53,
      emax 1024, round to nearest even), so that float effects such as
      [0.8 - 0.5 > 0.3] are reproduced exactly.
    - [toLowerCase] and [toUpperCase] are modelled on ASCII and Latin-1
      letters; other code units are left unchanged.
    - Regular expressions are run by a backtracking matcher with the
      priorities of the ECMAScript matcher (greedy and lazy quantifiers,
      ordered alternation, one capture group). *)

From Stdlib Require Import ZArith NArith List Bool Ascii String Lia Permutation Sorted.
From Stdlib Require Import Floats.SpecFloat.
Import ListNotations.

Open Scope bool_scope.

(** ** JavaScript strings *)

Definition jstr := list N.

Fixpoint jstr_eqb (a b : jstr) : bool :=
  match a, b with
  | [], [] => true
  | x :: a', y :: b' => (x =? y)%N && jstr_eqb a' b'
  | _, _ => false
  end.

(** An ASCII string literal as a JavaScript string.  Code units outside
    ASCII are written as numbers (e.g. [241] for the letter n with tilde). *)
Fixpoint js (s : string) : jstr :=
  match s with
  | EmptyString => []
  | String c s' => N_of_ascii c :: js s'
  end.

Arguments js s%_string_scope.

Definition is_upper_cu (c : N) : bool :=
  ((65 <=? c) && (c <=? 90))%N || ((192 <=? c) && (c <=? 222) && negb (c =? 215))%N.

Definition is_lower_cu (c : N) : bool :=
  ((97 <=? c) && (c <=? 122))%N || ((224 <=? c) && (c <=? 254) && negb (c =? 247))%N.

Definition lower_cu (c : N) : N := if is_upper_cu c then (c + 32)%N else c.
Definition upper_cu (c : N) : N := if is_lower_cu c then (c - 32)%N else c.

(** [String.prototype.toLowerCase] / [toUpperCase]. *)
Definition toLowerCase (s : jstr) : jstr := map lower_cu s.
Definition toUpperCase (s : jstr) : jstr := map upper_cu s.

Fixpoint startsWith (s p : jstr) : bool :=
  match p, s with
  | [], _ => true
  | x :: p', y :: s' => (x =? y)%N && startsWith s' p'
  | _ :: _, [] => false
  end.

(** [s.includes(p)] *)
Fixpoint includes (s p : jstr) : bool :=
  startsWith s p ||
  match s with
  | [] => false
  | _ :: s' => includes s' p
  end.

Definition endsWith (s p : jstr) : bool := startsWith (rev s) (rev p).

(** ECMAScript WhiteSpace and LineTerminator code units (used by [trim]
    and by [\s]). *)
Definition is_js_space (c : N) : bool :=
  existsb (N.eqb c)
    [9; 10; 11; 12; 13; 32; 160; 5760; 8192; 8193; 8194; 8195; 8196; 8197;
     8198; 8199; 8200; 8201; 8202; 8232; 8233; 8239; 8287; 12288; 65279]%N.

Fixpoint drop_spaces (s : jstr) : jstr :=
  match s with
  | c :: s' => if is_js_space c then drop_spaces s' else s
  | [] => []
  end.

Definition trim (s : jstr) : jstr := rev (drop_spaces (rev (drop_spaces s))).

(** [s.split(sep)] for a one-code-unit separator. *)
Fixpoint split_on (sep : N -> bool) (s : jstr) : list jstr :=
  match s with
  | [] => [[]]
  | c :: s' =>
    if sep c then [] :: split_on sep s'
    else match split_on sep s' with
         | w :: ws => (c :: w) :: ws
         | [] => [[c]]
         end
  end.

Fixpoint join (sep : jstr) (ws : list jstr) : jstr :=
  match ws with
  | [] => []
  | [w] => w
  | w :: ws' => w ++ sep ++ join sep ws'
  end.

Definition is_digit (c : N) : bool := ((48 <=? c) && (c <=? 57))%N.

(** Decimal rendering of a natural number ([`${n}`]). *)
Fixpoint digits_rev (fuel : nat) (n : N) : jstr :=
  match fuel with
  | O => []
  | S f =>
    let d := (48 + n mod 10)%N in
    if (n <? 10)%N then [d] else d :: digits_rev f (n / 10)%N
  end.

Definition show_N (n : N) : jstr := rev (digits_rev (S (N.to_nat (N.log2 n))) n).
Definition show_nat (n : nat) : jstr := show_N (N.of_nat n).

(** ** JavaScript numbers (IEEE-754 binary64) *)

Definition prec : Z := 53%Z.
Definition emax : Z := 1024%Z.

Abbreviation num := spec_float.

Definition fadd : num -> num -> num := SFadd prec emax.
Definition fsub : num -> num -> num := SFsub prec emax.
Definition fmul : num -> num -> num := SFmul prec emax.
Definition fdiv : num -> num -> num := SFdiv prec emax.

Definition is_nan (x : num) : bool :=
  match x with S754_nan => true | _ => false end.

(** [a < b], [a <= b], [a > b], [a >= b] on numbers (false on NaN). *)
Definition flt (a b : num) : bool := SFltb a b.
Definition fle (a b : num) : bool := SFleb a b.

(** Exact integers and decimal literals: the literal [n * 10^-k] is the
    correctly rounded quotient of two exactly representable integers. *)
Definition of_Z (z : Z) : num := binary_normalize prec emax z 0%Z false.
Definition of_nat (n : nat) : num := of_Z (Z.of_nat n).
Definition lit (n : Z) (k : nat) : num := fdiv (of_Z n) (of_Z (10 ^ Z.of_nat k)).

Definition f0 : num := S754_zero false.
Definition f1 : num := of_Z 1.

(** [Math.min] and [Math.max] of two numbers. *)
Definition js_min (x y : num) : num :=
  if is_nan x || is_nan y then S754_nan
  else if flt y x then y
  else if flt x y then x
  else match x, y with
       | S754_zero false, S754_zero true => y
       | _, _ => x
       end.

Definition js_max (x y : num) : num :=
  if is_nan x || is_nan y then S754_nan
  else if flt x y then y
  else if flt y x then x
  else match x, y with
       | S754_zero true, S754_zero false => y
       | _, _ => x
       end.

(** Truthiness of a number ([0], [-0] and [NaN] are falsy). *)
Definition truthy_num (x : num) : bool :=
  match x with
  | S754_zero _ | S754_nan => false
  | _ => true
  end.

(** ** Regular expressions

    A backtracking matcher in continuation-passing style, following the
    ECMAScript pattern semantics: alternatives are tried left to right,
    greedy quantifiers try one more iteration before stopping, lazy ones
    stop first, and an iteration of a star that consumes nothing fails.
    [RClass] is one code unit satisfying a predicate; [RGroup] is the
    (single) capture group; [REnd] is [$] without the [m] flag. *)

Inductive regex :=
| RClass (p : N -> bool)
| RSeq (r1 r2 : regex)
| RAlt (r1 r2 : regex)
| RStar (greedy : bool) (r : regex)
| REmpty
| REnd
| RGroup (r : regex).

(** A capture is recorded by the suffixes at its start and at its end. *)
Definition caps := option (jstr * jstr).

Definition mresult := option (jstr * caps).

Fixpoint rmatch (fuel : nat) : regex -> jstr -> caps -> (jstr -> caps -> mresult) -> mresult :=
  match fuel with
  | O => fun _ _ _ _ => None
  | S f =>
    fix go (r : regex) (s : jstr) (c : caps) (k : jstr -> caps -> mresult) {struct r} : mresult :=
      match r with
      | RClass p =>
        match s with
        | x :: s' => if p x then k s' c else None
        | [] => None
        end
      | RSeq r1 r2 => go r1 s c (fun s' c' => go r2 s' c' k)
      | RAlt r1 r2 =>
        match go r1 s c k with
        | Some res => Some res
        | None => go r2 s c k
        end
      | RStar g r1 =>
        let iter (_ : unit) :=
          rmatch f r1 s c (fun s' c' =>
            if Nat.ltb (List.length s') (List.length s)
            then rmatch f (RStar g r1) s' c' k else None) in
        if g then
          match iter tt with
          | Some res => Some res
          | None => k s c
          end
        else
          match k s c with
          | Some res => Some res
          | None => iter tt
          end
      | REmpty => k s c
      | REnd => match s with [] => k s c | _ :: _ => None end
      | RGroup r1 => go r1 s c (fun s' c' => k s' (Some (s, s')))
      end
  end.

(** Every star iteration consumes a code unit and no pattern of the
    program nests quantifiers, so [length s + 2] iterations suffice. *)
Definition exec_at (r : regex) (s : jstr) : mresult :=
  rmatch (List.length s + 2) r s None (fun s' c => Some (s', c)).

(** The text between two suffixes of the same string. *)
Definition between (start stop : jstr) : jstr :=
  firstn (List.length start - List.length stop) start.

(** [re.test(s)] for a pattern anchored with [^]. *)
Definition test_anchored (r : regex) (s : jstr) : bool :=
  match exec_at r s with Some _ => true | None => false end.

(** [re.test(s)] for an unanchored pattern: some position matches. *)
Fixpoint test (r : regex) (s : jstr) : bool :=
  test_anchored r s ||
  match s with
  | [] => false
  | _ :: s' => test r s'
  end.

(** The first match of an unanchored pattern: the matched text and the
    text of capture group 1 (if it took part). *)
Fixpoint exec_first (r : regex) (s : jstr) : option (jstr * option jstr) :=
  match exec_at r s with
  | Some (rest, c) =>
    Some (between s rest,
          match c with Some (a, b) => Some (between a b) | None => None end)
  | None =>
    match s with
    | [] => None
    | _ :: s' => exec_first r s'
    end
  end.

(** [s.match(re)] for a global pattern, with [|| []]. *)
Fixpoint match_all_aux (fuel : nat) (r : regex) (s : jstr) : list jstr :=
  match fuel with
  | O => []
  | S f =>
    match exec_at r s with
    | Some (rest, _) =>
      if Nat.ltb (List.length rest) (List.length s)
      then between s rest :: match_all_aux f r rest
      else [] :: match s with [] => [] | _ :: s' => match_all_aux f r s' end
    | None =>
      match s with
      | [] => []
      | _ :: s' => match_all_aux f r s'
      end
    end
  end.

Definition match_all (r : regex) (s : jstr) : list jstr :=
  match_all_aux (S (List.length s)) r s.

(** [s.replace(re, '')] for a pattern anchored with [^]. *)
Definition replace_anchored (r : regex) (s : jstr) : jstr :=
  match exec_at r s with Some (rest, _) => rest | None => s end.

(** [s.replace(re, '')] for a global pattern. *)
Fixpoint replace_all_aux (fuel : nat) (r : regex) (s : jstr) : jstr :=
  match fuel with
  | O => s
  | S f =>
    match exec_at r s with
    | Some (rest, _) =>
      if Nat.ltb (List.length rest) (List.length s)
      then replace_all_aux f r rest
      else match s with [] => [] | x :: s' => x :: replace_all_aux f r s' end
    | None =>
      match s with
      | [] => []
      | x :: s' => x :: replace_all_aux f r s'
      end
    end
  end.

Definition replace_all (r : regex) (s : jstr) : jstr :=
  replace_all_aux (S (List.length s)) r s.

(** Pattern building blocks. *)
Definition rchar (c : N) : regex := RClass (N.eqb c).
Definition rdigit : regex := RClass is_digit.
Definition rspace : regex := RClass is_js_space.
Definition rplus (r : regex) : regex := RSeq r (RStar true r).
Definition ropt (r : regex) : regex := RAlt r REmpty.

(** [r{m,n}] (greedy) *)
Fixpoint rupto (k : nat) (r : regex) : regex :=
  match k with
  | O => REmpty
  | S k' => ropt (RSeq r (rupto k' r))
  end.

Fixpoint rexact (k : nat) (r : regex) : regex :=
  match k with
  | O => REmpty
  | S k' => RSeq r (rexact k' r)
  end.

Definition rrange (m n : nat) (r : regex) : regex := RSeq (rexact m r) (rupto (n - m) r).

(** A literal under the [i] flag: an ASCII letter also matches its other
    case. *)
Definition ci_eq (c x : N) : bool := (x =? c)%N || (x =? lower_cu c)%N || (x =? upper_cu c)%N.

Fixpoint rlit_ci (w : jstr) : regex :=
  match w with
  | [] => REmpty
  | [c] => RClass (ci_eq c)
  | c :: w' => RSeq (RClass (ci_eq c)) (rlit_ci w')
  end.

(** ** lib/smartIngredientDetector.ts *)

(** The keys of [FOOD_INGREDIENTS], in [Object.entries] order. *)
Inductive category :=
| Protein | Dairy | Vegetable | Fruit | Grain | Spice | Condiment | Beverage.

Definition category_name (c : category) : jstr :=
  match c with
  | Protein => js "protein"
  | Dairy => js "dairy"
  | Vegetable => js "vegetable"
  | Fruit => js "fruit"
  | Grain => js "grain"
  | Spice => js "spice"
  | Condiment => js "condiment"
  | Beverage => js "beverage"
  end.

Definition protein_foods : list jstr := [
    js "chicken"; js "beef"; js "pork"; js "lamb"; js "turkey"; js "duck";
    js "fish"; js "salmon"; js "tuna"; js "cod"; js "halibut"; js "shrimp";
    js "crab"; js "lobster"; js "scallops"; js "mussels"; js "oysters";
    js "eggs"; js "egg whites"; js "egg yolks"; js "tofu"; js "tempeh";
    js "seitan"; js "beans"; js "lentils"; js "chickpeas"; js "black beans";
    js "kidney beans"; js "pinto beans"; js "navy beans"; js "edamame";
    js "peanuts"; js "almonds"; js "walnuts"; js "cashews"; js "pecans";
    js "pistachios"; js "hazelnuts"; js "macadamia nuts";
    js "sunflower seeds"; js "pumpkin seeds"; js "sesame seeds";
    js "chia seeds"; js "flax seeds"; js "hemp seeds"; js "quinoa";
    js "barley"; js "oats"; js "wheat"; js "rice"; js "corn"].

Definition dairy_foods : list jstr := [
    js "milk"; js "whole milk"; js "skim milk"; js "2% milk";
    js "buttermilk"; js "cream"; js "heavy cream"; js "half and half";
    js "sour cream"; js "yogurt"; js "greek yogurt"; js "plain yogurt";
    js "vanilla yogurt"; js "cheese"; js "cheddar cheese"; js "mozzarella";
    js "parmesan"; js "swiss cheese"; js "feta cheese"; js "goat cheese";
    js "ricotta cheese"; js "cottage cheese"; js "cream cheese"; js "butter";
    js "unsalted butter"; js "salted butter"; js "ghee"; js "margarine";
    js "ice cream"; js "frozen yogurt"; js "sorbet"; js "gelato"].

Definition vegetable_foods : list jstr := [
    js "tomato"; js "tomatoes"; js "cherry tomatoes"; js "roma tomatoes";
    js "beefsteak tomatoes"; js "onion"; js "onions"; js "red onion";
    js "yellow onion"; js "white onion"; js "green onion"; js "scallions";
    js "shallots"; js "leeks"; js "garlic"; js "garlic cloves";
    js "minced garlic"; js "garlic powder"; js "carrot"; js "carrots";
    js "baby carrots"; js "potato"; js "potatoes"; js "russet potatoes";
    js "red potatoes"; js "sweet potato"; js "yams"; js "lettuce";
    js "romaine lettuce"; js "iceberg lettuce"; js "butter lettuce";
    js "arugula"; js "spinach"; js "baby spinach"; js "kale";
    js "swiss chard"; js "collard greens"; js "broccoli"; js "cauliflower";
    js "brussels sprouts"; js "cabbage"; js "red cabbage"; js "bell pepper";
    js "bell peppers"; js "red bell pepper"; js "green bell pepper";
    js "yellow bell pepper"; (js "jalape" ++ [241%N] ++ js "o");
    js "serrano pepper"; js "habanero pepper"; js "cucumber"; js "cucumbers";
    js "english cucumber"; js "pickling cucumber"; js "celery";
    js "celery stalks"; js "celery root"; js "mushrooms";
    js "button mushrooms"; js "shiitake mushrooms";
    js "portobello mushrooms"; js "oyster mushrooms"; js "zucchini";
    js "yellow squash"; js "eggplant"; js "asparagus"; js "artichoke";
    js "beets"; js "radish"; js "turnip"; js "parsnip"; js "rutabaga";
    js "fennel"; js "bok choy"; js "napa cabbage"; js "daikon"; js "jicama";
    js "kohlrabi"; js "okra"; js "snow peas"; js "sugar snap peas";
    js "green beans"; js "wax beans"; js "lima beans"; js "corn";
    js "sweet corn"; js "baby corn"].

Definition fruit_foods : list jstr := [
    js "apple"; js "apples"; js "granny smith"; js "red delicious";
    js "gala apples"; js "honeycrisp"; js "fuji apples"; js "banana";
    js "bananas"; js "ripe bananas"; js "green bananas"; js "orange";
    js "oranges"; js "navel oranges"; js "blood oranges";
    js "mandarin oranges"; js "clementines"; js "tangerines"; js "lemon";
    js "lemons"; js "lime"; js "limes"; js "grapefruit";
    js "pink grapefruit"; js "white grapefruit"; js "strawberry";
    js "strawberries"; js "blueberry"; js "blueberries"; js "raspberry";
    js "raspberries"; js "blackberry"; js "blackberries"; js "cranberry";
    js "cranberries"; js "cherry"; js "cherries"; js "peach"; js "peaches";
    js "nectarine"; js "nectarines"; js "plum"; js "plums"; js "apricot";
    js "apricots"; js "pear"; js "pears"; js "avocado"; js "avocados";
    js "ripe avocado"; js "mango"; js "mangoes"; js "pineapple"; js "papaya";
    js "kiwi"; js "kiwifruit"; js "passion fruit"; js "dragon fruit";
    js "pomegranate"; js "figs"; js "dates"; js "raisins"; js "prunes";
    js "coconut"; js "coconut milk"; js "coconut cream"; js "coconut flakes";
    js "coconut water"].

Definition grain_foods : list jstr := [
    js "flour"; js "wheat flour"; js "all-purpose flour"; js "bread flour";
    js "cake flour"; js "whole wheat flour"; js "almond flour";
    js "coconut flour"; js "rice flour"; js "corn flour";
    js "buckwheat flour"; js "oat flour"; js "rice"; js "brown rice";
    js "white rice"; js "wild rice"; js "basmati rice"; js "jasmine rice";
    js "arborio rice"; js "pasta"; js "spaghetti"; js "penne"; js "macaroni";
    js "fettuccine"; js "linguine"; js "ravioli"; js "lasagna"; js "bread";
    js "sourdough"; js "whole grain bread"; js "white bread"; js "rye bread";
    js "pita bread"; js "naan"; js "tortillas"; js "corn tortillas";
    js "flour tortillas"; js "oats"; js "rolled oats"; js "steel cut oats";
    js "instant oats"; js "quinoa"; js "barley"; js "bulgur"; js "couscous";
    js "farro"; js "millet"; js "amaranth"; js "teff"; js "spelt";
    js "kamut"; js "cornmeal"; js "polenta"; js "grits"; js "crackers";
    js "breadcrumbs"; js "panko breadcrumbs"; js "croutons"].

Definition spice_foods : list jstr := [
    js "salt"; js "sea salt"; js "kosher salt"; js "table salt";
    js "himalayan salt"; js "pepper"; js "black pepper"; js "white pepper";
    js "cayenne pepper"; js "red pepper flakes"; js "paprika";
    js "smoked paprika"; js "chili powder"; js "garlic powder";
    js "onion powder"; js "ginger"; js "fresh ginger"; js "ground ginger";
    js "cinnamon"; js "ground cinnamon"; js "cinnamon sticks"; js "nutmeg";
    js "cloves"; js "allspice"; js "cardamom"; js "vanilla";
    js "vanilla extract"; js "vanilla bean"; js "bay leaves";
    js "star anise"; js "fennel seeds"; js "caraway seeds"; js "poppy seeds";
    js "sesame seeds"; js "cumin"; js "coriander"; js "turmeric";
    js "curry powder"; js "garam masala"; js "basil"; js "fresh basil";
    js "dried basil"; js "oregano"; js "thyme"; js "rosemary"; js "sage";
    js "parsley"; js "cilantro"; js "mint"; js "dill"; js "chives";
    js "tarragon"; js "marjoram"; js "rosemary"; js "thyme"; js "sage";
    js "oregano"; js "basil"; js "parsley"; js "cilantro"; js "mint";
    js "dill"; js "chives"; js "tarragon"; js "marjoram"].

Definition condiment_foods : list jstr := [
    js "olive oil"; js "extra virgin olive oil"; js "vegetable oil";
    js "canola oil"; js "coconut oil"; js "sesame oil"; js "avocado oil";
    js "walnut oil"; js "almond oil"; js "peanut oil"; js "sunflower oil";
    js "grapeseed oil"; js "balsamic vinegar"; js "red wine vinegar";
    js "white wine vinegar"; js "apple cider vinegar"; js "rice vinegar";
    js "sherry vinegar"; js "champagne vinegar"; js "ketchup"; js "mustard";
    js "dijon mustard"; js "yellow mustard"; js "whole grain mustard";
    js "mayonnaise"; js "sriracha"; js "hot sauce"; js "soy sauce";
    js "worcestershire sauce"; js "honey"; js "maple syrup";
    js "agave nectar"; js "molasses"; js "tomato sauce"; js "marinara sauce";
    js "pesto"; js "tahini"; js "hummus"; js "salsa"; js "guacamole";
    js "ranch dressing"; js "italian dressing"; js "caesar dressing";
    js "vinaigrette"; js "barbecue sauce"; js "teriyaki sauce";
    js "hoisin sauce"; js "fish sauce"; js "oyster sauce"].

Definition beverage_foods : list jstr := [
    js "water"; js "sparkling water"; js "seltzer"; js "club soda";
    js "tonic water"; js "coffee"; js "espresso"; js "latte";
    js "cappuccino"; js "americano"; js "tea"; js "green tea";
    js "black tea"; js "herbal tea"; js "chai tea"; js "matcha"; js "juice";
    js "orange juice"; js "apple juice"; js "cranberry juice";
    js "grape juice"; js "pineapple juice"; js "coconut water"; js "soda";
    js "cola"; js "ginger ale"; js "lemonade"; js "iced tea";
    js "sports drink"; js "energy drink"; js "beer"; js "wine";
    js "red wine"; js "white wine"; js "champagne"; js "spirits";
    js "whiskey"; js "vodka"; js "rum"; js "gin"; js "tequila"; js "bourbon";
    js "scotch"; js "cognac"; js "brandy"; js "liqueur"].

Definition NON_FOOD_WORDS : list jstr := [
    js "store"; js "market"; js "grocery"; js "supermarket"; js "pharmacy";
    js "dollar"; js "general"; js "target"; js "walmart"; js "costco";
    js "sams"; js "kroger"; js "safeway"; js "whole foods"; js "trader joes";
    js "aldi"; js "lidl"; js "receipt"; js "invoice"; js "bill"; js "total";
    js "subtotal"; js "tax"; js "discount"; js "coupon"; js "sale";
    js "price"; js "amount"; js "quantity"; js "qty"; js "item";
    js "product"; js "sku"; js "barcode"; js "upc"; js "date"; js "time";
    js "monday"; js "tuesday"; js "wednesday"; js "thursday"; js "friday";
    js "saturday"; js "sunday"; js "january"; js "february"; js "march";
    js "april"; js "may"; js "june"; js "july"; js "august"; js "september";
    js "october"; js "november"; js "december"; js "am"; js "pm";
    js "morning"; js "afternoon"; js "evening"; js "cash"; js "credit";
    js "debit"; js "card"; js "visa"; js "mastercard"; js "amex";
    js "american express"; js "paypal"; js "apple pay"; js "google pay";
    js "venmo"; js "zelle"; js "check"; js "change"; js "refund";
    js "return"; js "exchange"; js "policy"; js "warranty"; js "guarantee";
    js "satisfaction"; js "customer service"; js "help"; js "support";
    js "contact"; js "phone"; js "email"; js "website"; js "hours";
    js "open"; js "closed"; js "bag"; js "receipt"; js "thank"; js "you";
    js "visit"; js "again"; js "welcome"; js "come"; js "back"; js "soon";
    js "have"; js "nice"; js "day"; js "good"; js "great"; js "excellent";
    js "service"; js "quality"; js "fresh"; js "organic"; js "natural";
    js "healthy"; js "diet"; js "low"; js "fat"; js "sugar"; js "free";
    js "gluten"; js "free"; js "0"; js "1"; js "2"; js "3"; js "4"; js "5";
    js "6"; js "7"; js "8"; js "9"; js "$"; js "%"; js "#"; js "@"; js "&";
    js "*"; js "+"; js "="; js "lb"; js "lbs"; js "oz"; js "kg"; js "g";
    js "ml"; js "l"; js "pt"; js "qt"; js "gal"; js "dozen"; js "each";
    js "per"].

Definition FOOD_INGREDIENTS : list (category * list jstr) :=
  [(Protein, protein_foods); (Dairy, dairy_foods); (Vegetable, vegetable_foods);
   (Fruit, fruit_foods); (Grain, grain_foods); (Spice, spice_foods);
   (Condiment, condiment_foods); (Beverage, beverage_foods)].

Record IngredientMatch := mkMatch {
  im_name : jstr;
  im_confidence : num;
  im_context : jstr;
  im_category : category
}.

Record ReceiptAnalysis := mkAnalysis {
  ra_ingredients : list IngredientMatch;
  ra_storeInfo : list jstr;
  ra_prices : list jstr;
  ra_dates : list jstr;
  ra_totalAmount : option jstr;
  ra_confidence : num
}.

(** [/\$?\d+\.\d{2}|\$\d+/] *)
Definition pricePattern : regex :=
  RAlt (RSeq (ropt (rchar 36)) (RSeq (rplus rdigit) (RSeq (rchar 46) (rexact 2 rdigit))))
       (RSeq (rchar 36) (rplus rdigit)).

Definition is_alpha (c : N) : bool :=
  ((65 <=? c) && (c <=? 90))%N || ((97 <=? c) && (c <=? 122))%N.

(** [/\d{1,2}\/\d{1,2}\/\d{2,4}|\d{4}-\d{2}-\d{2}|[A-Za-z]+ \d{1,2},? \d{4}/] *)
Definition datePattern : regex :=
  RAlt (RSeq (rrange 1 2 rdigit) (RSeq (rchar 47) (RSeq (rrange 1 2 rdigit)
          (RSeq (rchar 47) (rrange 2 4 rdigit)))))
  (RAlt (RSeq (rexact 4 rdigit) (RSeq (rchar 45) (RSeq (rexact 2 rdigit)
          (RSeq (rchar 45) (rexact 2 rdigit)))))
        (RSeq (rplus (RClass is_alpha)) (RSeq (rchar 32) (RSeq (rrange 1 2 rdigit)
          (RSeq (ropt (rchar 44)) (RSeq (rchar 32) (rexact 4 rdigit))))))).

(** [isNonFoodLine]: the anchored patterns, the first fourteen and the
    last five under the [i] flag. *)
Definition nonFoodPatterns : list regex :=
  map rlit_ci [js "total"; js "subtotal"; js "tax"; js "discount"; js "coupon";
               js "sale"; js "receipt"; js "invoice"; js "thank you"; js "visit us";
               js "store hours"; js "phone"; js "website"; js "email"] ++
  [RSeq (rrange 1 2 rdigit) (RSeq (rchar 47) (RSeq (rrange 1 2 rdigit)
     (RSeq (rchar 47) (rrange 2 4 rdigit))));
   RSeq (rrange 1 2 rdigit) (RSeq (rchar 58) (rexact 2 rdigit))] ++
  map rlit_ci [js "qty"; js "item"; js "sku"; js "upc"; js "barcode"].

Definition isNonFoodLine (line : jstr) : bool :=
  existsb (fun p => test_anchored p line) nonFoodPatterns.

Definition storeWords : list jstr :=
  [js "store"; js "market"; js "grocery"; js "supermarket"; js "pharmacy";
   js "dollar"; js "general"; js "target"; js "walmart"; js "costco"; js "sams";
   js "kroger"; js "safeway"; js "whole foods"; js "trader joes"; js "aldi";
   js "lidl"].

(** [isStoreInfo]: unanchored patterns under the [i] flag. *)
Definition isStoreInfo (line : jstr) : bool :=
  existsb (fun w => test (rlit_ci w) line) storeWords.

(** The whole-word test of [calculateIngredientConfidence]. *)
Definition whole_word (lineLower foodLower : jstr) : bool :=
  includes lineLower (js " " ++ foodLower ++ js " ")
  || startsWith lineLower (foodLower ++ js " ")
  || endsWith lineLower (js " " ++ foodLower).

Definition nonFoodWordsInLine (lineLower : jstr) : list jstr :=
  filter (fun w => includes lineLower (toLowerCase w)) NON_FOOD_WORDS.

Definition bonus_category (category : jstr) : bool :=
  existsb (jstr_eqb category) [js "vegetable"; js "fruit"; js "protein"; js "dairy"].

Definition calculateIngredientConfidence (food line : jstr) (category : jstr) : num :=
  let confidence := lit 5 1 in
  let lineLower := toLowerCase line in
  let foodLower := toLowerCase food in
  let confidence := if whole_word lineLower foodLower
                    then fadd confidence (lit 3 1) else confidence in
  let confidence := if negb (test pricePattern line)
                    then fadd confidence (lit 2 1) else confidence in
  let confidence :=
    fsub confidence (fmul (of_nat (List.length (nonFoodWordsInLine lineLower))) (lit 1 1)) in
  let confidence := if bonus_category category
                    then fadd confidence (lit 1 1) else confidence in
  js_max f0 (js_min f1 confidence).

Definition findIngredientsInLine (line lineLower : jstr) : list IngredientMatch :=
  flat_map (fun '(cat, foods) =>
    flat_map (fun food =>
      let foodLower := toLowerCase food in
      if includes lineLower foodLower then
        let confidence := calculateIngredientConfidence food line (category_name cat) in
        if flt (lit 3 1) confidence
        then [mkMatch food confidence line cat]
        else []
      else []) foods) FOOD_INGREDIENTS.

(** A JavaScript [Map] keyed by strings: an association list in insertion
    order; [set] on an existing key keeps its position. *)
Section JsMap.
Context {A : Type}.

Fixpoint map_get (k : jstr) (m : list (jstr * A)) : option A :=
  match m with
  | [] => None
  | (k', v) :: m' => if jstr_eqb k k' then Some v else map_get k m'
  end.

Fixpoint map_set (k : jstr) (v : A) (m : list (jstr * A)) : list (jstr * A) :=
  match m with
  | [] => [(k, v)]
  | (k', v') :: m' => if jstr_eqb k k' then (k', v) :: m' else (k', v') :: map_set k v m'
  end.
End JsMap.

Definition match_key (i : IngredientMatch) : jstr := toLowerCase (im_name i).

Definition dedup_step (seen : list (jstr * IngredientMatch)) (ingredient : IngredientMatch)
  : list (jstr * IngredientMatch) :=
  let key := match_key ingredient in
  match map_get key seen with
  | None => map_set key ingredient seen
  | Some old =>
    if flt (im_confidence old) (im_confidence ingredient)
    then map_set key ingredient seen else seen
  end.

Definition removeDuplicateIngredients (ingredients : list IngredientMatch) : list IngredientMatch :=
  map snd (fold_left dedup_step ingredients []).

(** [ingredients.sort((a, b) => b.confidence - a.confidence)]:
    [Array.prototype.sort] is stable, and for a consistent comparator every
    stable sort yields the order of this insertion sort, which puts [x]
    before the first [y] that the comparator places after [x]. *)
Definition sort_cmp (a b : IngredientMatch) : num := fsub (im_confidence b) (im_confidence a).

Fixpoint insert_sorted (x : IngredientMatch) (l : list IngredientMatch) : list IngredientMatch :=
  match l with
  | [] => [x]
  | y :: l' => if flt f0 (sort_cmp y x) then x :: l else y :: insert_sorted x l'
  end.

Definition sort_by_confidence (l : list IngredientMatch) : list IngredientMatch :=
  fold_left (fun acc x => insert_sorted x acc) l [].

Definition sum_confidence (ingredients : list IngredientMatch) : num :=
  fold_left (fun sum ing => fadd sum (im_confidence ing)) ingredients f0.

Definition calculateOverallConfidence (ingredients : list IngredientMatch) (text : jstr) : num :=
  match ingredients with
  | [] => f0
  | _ =>
    let avgConfidence := fdiv (sum_confidence ingredients) (of_nat (List.length ingredients)) in
    let textLength := List.length text in
    let ingredientCount := List.length ingredients in
    let confidence := avgConfidence in
    let confidence := if Nat.ltb 100 textLength && Nat.ltb 3 ingredientCount
                      then fadd confidence (lit 1 1) else confidence in
    let confidence := if Nat.ltb 10 ingredientCount
                      then fadd confidence (lit 1 1) else confidence in
    js_min f1 confidence
  end.

(** [totalAmount]: [parseFloat(p.replace('$', ''))], [Math.max(...amounts)]
    and [`$${maxAmount.toFixed(2)}`].  The matched prices have the shapes
    [$?d+.dd] and [$d+]; [price_cents] reads the decimal literal after the
    dollar sign exactly, in cents, and [parseFloat] rounds that value to
    the nearest double (ties to even; the value can be [Infinity] for very
    long digit strings).  The spread call is taken to succeed: engines
    bound the number of arguments of a call, a limit the language leaves to
    the implementation. *)
Fixpoint remove_first (c : N) (s : jstr) : jstr :=
  match s with
  | [] => []
  | x :: s' => if (x =? c)%N then s' else x :: remove_first c s'
  end.

Fixpoint read_digits (s : jstr) (acc : Z) : Z * jstr :=
  match s with
  | x :: s' => if is_digit x then read_digits s' (acc * 10 + Z.of_N (x - 48))%Z else (acc, s)
  | [] => (acc, s)
  end.

Definition price_cents (p : jstr) : Z :=
  let '(ip, rest) := read_digits (remove_first 36 p) 0%Z in
  match rest with
  | 46 :: d1 :: d2 :: _ =>
    if is_digit d1 && is_digit d2
    then (ip * 100 + Z.of_N (d1 - 48) * 10 + Z.of_N (d2 - 48))%Z
    else (ip * 100)%Z
  | _ => (ip * 100)%Z
  end%N.

(** The correctly rounded quotient [n / d] of two integers ([0 <= n],
    [0 < d]), computed as [SFdiv] computes the quotient of two mantissas. *)
Definition round_ratio (n d : Z) : num :=
  match n with
  | Z0 => S754_zero false
  | _ => let '(q, e, l) := SFdiv_core_binary prec emax n 0 d 0 in
         binary_round_aux prec emax false q e l
  end.

(** [parseFloat(p.replace('$', ''))] *)
Definition parseFloat_price (p : jstr) : num := round_ratio (price_cents p) 100.

(** [Math.max(...values)]: from [-Infinity], one argument at a time. *)
Definition Math_max (values : list num) : num := fold_left js_max values (S754_infinity true).

Definition zeros (k : nat) : jstr := repeat 48%N k.

(** The digits of [n] with the decimal point before the last two, padded
    with zeros to at least three digits (steps 11.c-d of [toFixed]). *)
Definition fixed2_digits (n : Z) : jstr :=
  let m := if (n =? 0)%Z then js "0" else show_N (Z.to_N n) in
  let m := if Nat.leb (List.length m) 2 then zeros (3 - List.length m) ++ m else m in
  let k := List.length m in
  firstn (k - 2) m ++ js "." ++ skipn (k - 2) m.

(** The integer [n] nearest to [100 * m * 2^e], the larger one on a tie. *)
Definition scaled100_nearest (m : positive) (e : Z) : Z :=
  if (0 <=? e)%Z then (Zpos m * 100 * 2 ^ e)%Z
  else ((2 * (Zpos m * 100) + 2 ^ (- e)) / (2 * 2 ^ (- e)))%Z.

Definition at_least_1e21 (m : positive) (e : Z) : bool :=
  if (0 <=? e)%Z then (10 ^ 21 <=? Zpos m * 2 ^ e)%Z
  else (10 ^ 21 * 2 ^ (- e) <=? Zpos m)%Z.

(** [Number::toString] for an integer value [X >= 10^21] of [D] digits:
    the least [k] for which some [s * 10^(n-k)] with [k] digits rounds to
    [x]; among the two [k]-digit neighbours of [X] the closer one, the even
    [s] on a tie.  The result is the pair [(s, n)]. *)
Fixpoint shortest_digits (x : num) (X : Z) (D : nat) (fuel k : nat) : Z * nat :=
  match fuel with
  | O => (X, D)
  | S fuel' =>
    let p := (10 ^ Z.of_nat (D - k))%Z in
    let q := (X / p)%Z in
    let lo := (q * p)%Z in
    let hi := (lo + p)%Z in
    let lo_ok := SFeqb (of_Z lo) x in
    let hi_ok := SFeqb (of_Z hi) x in
    let hi_result := if (q + 1 =? 10 ^ Z.of_nat k)%Z then (10 ^ Z.of_nat (k - 1), S D)%Z else (q + 1, D)%Z in
    if lo_ok && hi_ok then
      if (X - lo <? hi - X)%Z then (q, D)
      else if (hi - X <? X - lo)%Z then hi_result
      else if Z.even q then (q, D) else hi_result
    else if lo_ok then (q, D)
    else if hi_ok then hi_result
    else shortest_digits x X D fuel' (S k)
  end.

(** [Number::toString(x)] for [x >= 10^21]: there [n >= 22], so the
    exponential form applies. *)
Definition toString_large (x : num) (m : positive) (e : Z) : jstr :=
  let X := Z.shiftl (Zpos m) e in
  let D := List.length (show_N (Z.to_N X)) in
  let '(s, n) := shortest_digits x X D D 1 in
  let digits := show_N (Z.to_N s) in
  match digits with
  | [d] => [d] ++ js "e+" ++ show_nat (n - 1)
  | d :: rest => [d] ++ js "." ++ rest ++ js "e+" ++ show_nat (n - 1)
  | [] => []
  end.

(** [Number.prototype.toFixed(2)]. *)
Definition toFixed2 (x : num) : jstr :=
  match x with
  | S754_nan => js "NaN"
  | S754_infinity false => js "Infinity"
  | S754_infinity true => js "-Infinity"
  | S754_zero _ => fixed2_digits 0
  | S754_finite s m e =>
    (if s then js "-" else []) ++
    (if at_least_1e21 m e then toString_large (S754_finite false m e) m e
     else fixed2_digits (scaled100_nearest m e))
  end.

Definition totalAmount_of (foundPrices : list jstr) : option jstr :=
  match foundPrices with
  | [] => None
  | _ => Some (js "$" ++ toFixed2 (Math_max (map parseFloat_price foundPrices)))
  end.

Definition is_empty (s : jstr) : bool := match s with [] => true | _ => false end.

(** [text.split('\n').map(line => line.trim()).filter(line => line.length > 0)] *)
Definition receipt_lines (text : jstr) : list jstr :=
  filter (fun line => negb (is_empty line)) (map trim (split_on (N.eqb 10) text)).

(** The body of [lines.forEach]: the matches found so far and [storeInfo]. *)
Definition analyze_line (acc : list IngredientMatch * list jstr) (line : jstr)
  : list IngredientMatch * list jstr :=
  let '(ingredients, storeInfo) := acc in
  let lineLower := toLowerCase line in
  if isNonFoodLine lineLower then
    (ingredients, if isStoreInfo lineLower then storeInfo ++ [line] else storeInfo)
  else
    (ingredients ++ findIngredientsInLine line lineLower, storeInfo).

Definition analyzeReceiptText (text : jstr) : ReceiptAnalysis :=
  let lines := receipt_lines text in
  let foundPrices := match_all pricePattern text in
  let totalAmount := totalAmount_of foundPrices in
  let foundDates := match_all datePattern text in
  let '(ingredients, storeInfo) := fold_left analyze_line lines ([], []) in
  let uniqueIngredients := removeDuplicateIngredients ingredients in
  let sortedIngredients := sort_by_confidence uniqueIngredients in
  let confidence := calculateOverallConfidence sortedIngredients text in
  mkAnalysis sortedIngredients storeInfo foundPrices foundDates totalAmount confidence.

(** ** lib/ocrService.ts *)

Record OCRResult := mkOCR {
  ocr_text : jstr;
  ocr_confidence : num;
  ocr_ingredients : list jstr;
  ocr_smartAnalysis : option ReceiptAnalysis
}.

(** Outcome of an asynchronous call: a value or a thrown error. *)
Inductive outcome (A : Type) :=
| Ok (a : A)
| Err (msg : jstr).
Arguments Ok {A} a.
Arguments Err {A} msg.

(** [config.method]; [OtherMethod] is a value outside the declared union,
    which reaches the [default] branch. *)
Inductive OCRMethod :=
| Mock | Tesseract | GoogleVision | Simple
| OtherMethod (m : jstr).

(** What [new Date().toLocaleDateString()] and [toLocaleTimeString()]
    render at the time of the call. *)
Record Clock := mkClock { localeDate : jstr; localeTime : jstr }.

(** The external collaborators of [extractTextFromReceipt]. *)
Record OcrEnv := mkEnv {
  env_clock : Clock;
  env_visionConfigured : bool;                 (* isGoogleVisionConfigured() *)
  env_vision : jstr -> outcome jstr;           (* imageToBase64, then callGoogleVisionAPI *)
  env_tesseract : jstr -> outcome jstr         (* callTesseractOCR *)
}.

Definition nl : jstr := [10%N].

(** [callSimpleOCR]: the template literal, line by line. *)
Definition callSimpleOCR (clock : Clock) : jstr :=
  join nl
    [[]; js "    GROCERY STORE RECEIPT"; js "    ===================="; js "    ";
     js "    Date: " ++ localeDate clock; js "    Time: " ++ localeTime clock; js "    ";
     js "    Items:"; js "    - Organic Flour $3.99"; js "    - Sugar $2.49";
     js "    - Salt $1.29"; js "    - Olive Oil $5.99"; js "    - Fresh Tomatoes $4.99";
     js "    - Onions $2.99"; js "    - Garlic $1.99"; js "    - Basil $2.99";
     js "    - Mozzarella Cheese $6.99"; js "    - Parmesan Cheese $4.99"; js "    ";
     js "    Subtotal: $38.70"; js "    Tax: $3.10"; js "    Total: $41.80"; js "    ";
     js "    Thank you for shopping with us!"; js "  "].

Definition mockReceiptText : jstr :=
  join nl
    [[]; js "    GROCERY STORE RECEIPT"; js "    ===================="; js "    ";
     js "    Ingredients:"; js "    - Organic Flour"; js "    - Sugar"; js "    - Salt";
     js "    - Olive Oil"; js "    - Fresh Tomatoes"; js "    - Onions"; js "    - Garlic";
     js "    - Basil"; js "    - Mozzarella Cheese"; js "    - Parmesan Cheese"; js "    ";
     js "    Total: $25.99"; js "  "].

Definition ingredientKeywords : list jstr := [
    js "flour"; js "sugar"; js "salt"; js "pepper"; js "oil"; js "butter";
    js "milk"; js "eggs"; js "cheese"; js "tomato"; js "onion"; js "garlic";
    js "carrot"; js "potato"; js "chicken"; js "beef"; js "pork"; js "rice";
    js "pasta"; js "bread"; js "lettuce"; js "spinach"; js "broccoli";
    js "pepper"; js "lemon"; js "lime"; js "orange"; js "apple"; js "banana";
    js "strawberry"; js "blueberry"; js "vanilla"; js "cinnamon";
    js "ginger"; js "basil"; js "oregano"; js "thyme"; js "rosemary";
    js "parsley"; js "cilantro"; js "mint"; js "chili"; js "paprika";
    js "cumin"; js "coriander"; js "nutmeg"; js "cloves"; js "bay leaves";
    js "sage"; js "dill"; js "tarragon"; js "marjoram"; js "honey";
    js "maple syrup"; js "vinegar"; js "soy sauce";
    js "worcestershire sauce"; js "ketchup"; js "mustard"; js "mayonnaise";
    js "sour cream"; js "yogurt"; js "cream"; js "almonds"; js "walnuts";
    js "pecans"; js "cashews"; js "peanuts"; js "sesame seeds";
    js "sunflower seeds"; js "pumpkin seeds"; js "chia seeds";
    js "flax seeds"; js "quinoa"; js "barley"; js "oats"; js "wheat";
    js "corn"; js "beans"; js "lentils"; js "chickpeas"; js "black beans";
    js "kidney beans"; js "pinto beans"; js "navy beans"; js "tofu";
    js "tempeh"; js "seitan"; js "mushrooms"; js "bell peppers";
    (js "jalape" ++ [241%N] ++ js "o"); js "avocado"; js "cucumber";
    js "celery"; js "radish"; js "beet"; js "turnip"; js "parsnip";
    js "sweet potato"; js "yam"; js "squash"; js "zucchini"; js "eggplant";
    js "asparagus"; js "artichoke"; js "cauliflower"; js "cabbage";
    js "kale"; js "arugula"; js "watercress"; js "endive"; js "fennel";
    js "leek"; js "shallot"; js "scallion"; js "chive"; js "ginger";
    js "turmeric"; js "cardamom"; js "star anise"; js "fennel seeds";
    js "caraway seeds"; js "poppy seeds"; js "sesame oil"; js "olive oil";
    js "coconut oil"; js "vegetable oil"; js "canola oil";
    js "sunflower oil"; js "grapeseed oil"; js "avocado oil";
    js "walnut oil"; js "almond oil"; js "peanut oil"; js "corn oil";
    js "soybean oil"; js "palm oil"; js "balsamic vinegar";
    js "red wine vinegar"; js "white wine vinegar"; js "apple cider vinegar";
    js "rice vinegar"; js "sherry vinegar"; js "champagne vinegar";
    js "malt vinegar"; js "distilled vinegar"; js "white vinegar";
    js "coconut milk"; js "almond milk"; js "soy milk"; js "oat milk";
    js "rice milk"; js "hemp milk"; js "cashew milk"; js "macadamia milk";
    js "flax milk"; js "quinoa milk"; js "spelt milk"; js "kamut milk";
    js "amaranth milk"; js "teff milk"; js "buckwheat milk";
    js "millet milk"; js "sorghum milk"].

(** [keyword.split(' ').map(word => word.charAt(0).toUpperCase() + word.slice(1)).join(' ')] *)
Definition capitalize_words (keyword : jstr) : jstr :=
  join (js " ") (map (fun word => match word with
                                  | [] => []
                                  | c :: rest => upper_cu c :: rest
                                  end) (split_on (N.eqb 32) keyword)).

Definition push_new (l : list jstr) (x : jstr) : list jstr :=
  if existsb (jstr_eqb x) l then l else l ++ [x].

Definition not_line_terminator (c : N) : bool :=
  negb (existsb (N.eqb c) [10; 13; 8232; 8233]%N).

(** [/ingredients?[:\s]+(.*?)(?:\n|$)/i] *)
Definition ingredientsListPattern : regex :=
  RSeq (rlit_ci (js "ingredient"))
  (RSeq (ropt (RClass (ci_eq 115)))
  (RSeq (rplus (RClass (fun c => (c =? 58)%N || is_js_space c)))
  (RSeq (RGroup (RStar false (RClass not_line_terminator)))
        (RAlt (rchar 10) REnd)))).

(** [/[,;•\n]/] (the bullet is U+2022) *)
Definition listSeparator (c : N) : bool := existsb (N.eqb c) [44; 59; 8226; 10]%N.

(** [/^\d+\.?\s*/] *)
Definition ordinalPattern : regex := RSeq (rplus rdigit) (RSeq (ropt (rchar 46)) (RStar true rspace)).

(** [/\([^)]*\)/g] *)
Definition parenPattern : regex :=
  RSeq (rchar 40) (RSeq (RStar true (RClass (fun c => negb (c =? 41)%N))) (rchar 41)).

Definition clean_item (item : jstr) : jstr :=
  trim (replace_all parenPattern (replace_anchored ordinalPattern (trim item))).

Definition extractIngredients (text : jstr) : list jstr :=
  let lowerText := toLowerCase text in
  let ingredients :=
    fold_left (fun ings keyword =>
      if includes lowerText (toLowerCase keyword)
      then push_new ings (capitalize_words keyword) else ings) ingredientKeywords [] in
  match exec_first ingredientsListPattern lowerText with
  | Some (_, Some ingredientsList) =>
    let listItems := filter (fun item => Nat.ltb 2 (List.length item))
                       (map clean_item (split_on listSeparator ingredientsList)) in
    fold_left push_new listItems ingredients
  | _ => ingredients
  end.

Definition extractTextFromReceiptMock (imageUri : jstr) : outcome OCRResult :=
  Ok (mkOCR mockReceiptText (lit 85 2) (extractIngredients mockReceiptText) None).

(** The common tail of [extractTextFromReceipt] after text extraction. *)
Definition finish_ocr (extractedText : jstr) (confidence : num) : outcome OCRResult :=
  let smartAnalysis := analyzeReceiptText extractedText in
  Ok (mkOCR extractedText (js_max confidence (ra_confidence smartAnalysis))
            (map im_name (ra_ingredients smartAnalysis)) (Some smartAnalysis)).

Definition extractTextFromReceipt (env : OcrEnv) (method : OCRMethod) (imageUri : jstr)
  : outcome OCRResult :=
  match method with
  | GoogleVision =>
    if env_visionConfigured env then
      match env_vision env imageUri with
      | Ok t => finish_ocr t (lit 9 1)
      | Err e => Err e
      end
    else finish_ocr (callSimpleOCR (env_clock env)) (lit 6 1)
  | Tesseract =>
    match env_tesseract env imageUri with
    | Ok t => finish_ocr t (lit 7 1)
    | Err _ => finish_ocr (callSimpleOCR (env_clock env)) (lit 6 1)
    end
  | Simple => finish_ocr (callSimpleOCR (env_clock env)) (lit 6 1)
  | Mock => extractTextFromReceiptMock imageUri
  | OtherMethod m => Err (js "Unknown OCR method: " ++ m)
  end.

(** [callGoogleVisionAPI] after the request: [FetchFailed] is a rejected
    [fetch]; a response carries [response.ok], [response.status], the body
    as text (read when the status is an error) and the body as parsed by
    [response.json()]: invalid JSON with the parser's message, or the
    [text] of [data.responses[0].fullTextAnnotation] when present. *)
Inductive VisionBody :=
| BodyJson (fullText : option jstr)
| BodyInvalid (parseError : jstr).

Inductive VisionFetch :=
| FetchFailed (message : jstr)
| FetchResponse (ok : bool) (status : nat) (bodyText : jstr) (body : VisionBody).

Definition callGoogleVisionAPI (fetched : VisionFetch) : outcome jstr :=
  let fail message := Err (js "Failed to extract text from image: " ++ message) in
  match fetched with
  | FetchFailed message => fail message
  | FetchResponse ok status errorText body =>
    if negb ok then fail (js "Vision API error: " ++ show_nat status ++ js " - " ++ errorText)
    else match body with
         | BodyInvalid message => fail message
         | BodyJson (Some extractedText) => Ok extractedText
         | BodyJson None => Ok []
         end
  end.

(** ** lib/ocrConfig.ts *)

Definition placeholderKey : jstr := js "YOUR_GOOGLE_VISION_API_KEY".
Definition placeholderKeyHere : jstr := js "YOUR_GOOGLE_VISION_API_KEY_HERE".

(** [a || b] on two values that are a string or [undefined]. *)
Definition or_str (a b : option jstr) : option jstr :=
  match a with
  | Some (_ :: _) => a
  | _ => b
  end.

(** [key && key !== 'YOUR_GOOGLE_VISION_API_KEY' && key !== 'YOUR_GOOGLE_VISION_API_KEY_HERE'] *)
Definition key_usable (key : option jstr) : bool :=
  match key with
  | Some k => negb (is_empty k) && negb (jstr_eqb k placeholderKey) && negb (jstr_eqb k placeholderKeyHere)
  | None => false
  end.

Definition key_value (key : option jstr) : jstr :=
  match key with Some k => k | None => [] end.

(** [getGoogleVisionApiKey]: the inputs are
    [Constants.expoConfig?.extra?.googleVisionApiKey],
    [process.env.GOOGLE_VISION_API_KEY] and
    [process.env.EXPO_PUBLIC_GOOGLE_VISION_API_KEY], each a string or
    [undefined]. *)
Definition getGoogleVisionApiKey (constantsApiKey envGoogle envExpo : option jstr) : jstr :=
  if key_usable constantsApiKey then key_value constantsApiKey
  else
    let envApiKey := or_str envGoogle envExpo in
    if key_usable envApiKey then key_value envApiKey
    else placeholderKey.

(** [DEFAULT_OCR_CONFIG.method] *)
Definition DEFAULT_OCR_method : OCRMethod := GoogleVision.

Definition isGoogleVisionConfigured (apiKey : jstr) : bool :=
  match DEFAULT_OCR_method with GoogleVision => true | _ => false end &&
  negb (jstr_eqb apiKey placeholderKey) &&
  Nat.ltb 0 (List.length apiKey).

(** ** components/IngredientConfirmationModal.tsx *)

Inductive source := Detected | Manual.

(** The value held in an item's [unit] field.  [normalizeUnit] looks the
    lowercased unit up in an object literal, so the keys [constructor] and
    [__proto__] reach members inherited from [Object.prototype] (the
    [Object] function and [Object.prototype] itself), which are truthy
    non-strings; [UProtoMember k] is the member found under key [k]. *)
Inductive UnitVal :=
| UStr (s : jstr)
| UProtoMember (key : jstr).

(** [`${unit}`] *)
Definition unit_to_string (u : UnitVal) : jstr :=
  match u with
  | UStr s => s
  | UProtoMember k =>
    if jstr_eqb k (js "constructor") then js "function Object() { [native code] }"
    else js "[object Object]"
  end.

Record IngredientItem := mkItem {
  it_id : jstr;
  it_name : jstr;
  it_quantity : num;
  it_unit : UnitVal;
  it_isSelected : bool;
  it_source : source;
  it_confidence : option num
}.

Record DetectedIngredient := mkDetected {
  di_name : jstr;
  di_confidence : option num
}.

Definition unitMap : list (jstr * jstr) :=
  [(js "each", js "ea"); (js "piece", js "ea"); (js "pound", js "lb"); (js "pounds", js "lb");
   (js "ounce", js "oz"); (js "ounces", js "oz"); (js "gram", js "g"); (js "grams", js "g");
   (js "kilogram", js "kg"); (js "kilograms", js "kg"); (js "milliliter", js "ml");
   (js "milliliters", js "ml"); (js "liter", js "L"); (js "liters", js "L")].

(** [unitMap[key]]: an own property, an inherited one, or [undefined]. *)
Inductive lookup_result := LStr (s : jstr) | LProto (key : jstr) | LUndefined.

Definition unitMap_lookup (key : jstr) : lookup_result :=
  match map_get key unitMap with
  | Some v => LStr v
  | None =>
    if jstr_eqb key (js "constructor") || jstr_eqb key (js "__proto__")
    then LProto key else LUndefined
  end.

Definition normalizeUnit (unit : UnitVal) : UnitVal :=
  match unit with
  | UProtoMember _ => UStr (js "ea")                (* typeof unit !== 'string' *)
  | UStr u =>
    if is_empty u then UStr (js "ea")               (* !unit *)
    else match unitMap_lookup (toLowerCase u) with  (* unitMap[...] || unit *)
         | LStr v => if is_empty v then UStr u else UStr v
         | LProto k => UProtoMember k
         | LUndefined => UStr u
         end
  end.

Definition truthy_opt (c : option num) : bool :=
  match c with Some x => truthy_num x | None => false end.

(** The merge step: [existing] is a copy made by [{ ...ingredient }], so
    the update does not reach the caller's items. *)
Definition merge_step (merged : list (jstr * IngredientItem)) (ingredient : IngredientItem)
  : list (jstr * IngredientItem) :=
  let key := trim (toLowerCase (it_name ingredient)) ++ js "_" ++ unit_to_string (it_unit ingredient) in
  match map_get key merged with
  | Some existing =>
    let confidence :=
      if truthy_opt (it_confidence ingredient) && truthy_opt (it_confidence existing)
      then match it_confidence existing, it_confidence ingredient with
           | Some e, Some i => Some (js_max e i)
           | _, _ => it_confidence existing
           end
      else it_confidence existing in
    map_set key (mkItem (it_id existing) (it_name existing)
                        (fadd (it_quantity existing) (it_quantity ingredient))
                        (it_unit existing) (it_isSelected existing) (it_source existing)
                        confidence) merged
  | None => map_set key ingredient merged
  end.

Definition mergeDuplicates (ingredients : list IngredientItem) : list IngredientItem :=
  map snd (fold_left merge_step ingredients []).

Definition with_unit (i : IngredientItem) (u : UnitVal) : IngredientItem :=
  mkItem (it_id i) (it_name i) (it_quantity i) u (it_isSelected i) (it_source i) (it_confidence i).

(** What [validateAndSave] does: show an alert, or call [onSave]. *)
Inductive SaveOutcome :=
| Alert (title message : jstr)
| Saved (items : list IngredientItem).

Fixpoint item_errors (index : nat) (items : list IngredientItem) : list jstr :=
  match items with
  | [] => []
  | ingredient :: rest =>
    let label := js "Item " ++ show_nat (S index) in
    (if is_empty (trim (it_name ingredient)) then [label ++ js ": Name is required"] else []) ++
    (if fle (it_quantity ingredient) f0 then [label ++ js ": Quantity must be greater than 0"] else []) ++
    item_errors (S index) rest
  end.

Definition validateAndSave (ingredients : list IngredientItem) : SaveOutcome :=
  let selectedIngredients := filter it_isSelected ingredients in
  match selectedIngredients with
  | [] => Alert (js "No Items Selected") (js "Please select at least one ingredient to save.")
  | _ =>
    let errors := item_errors 0 selectedIngredients in
    match errors with
    | _ :: _ => Alert (js "Validation Error") (join nl errors)
    | [] =>
      let normalizedIngredients :=
        map (fun i => with_unit i (normalizeUnit (it_unit i))) selectedIngredients in
      Saved (mergeDuplicates normalizedIngredients)
    end
  end.

(** The component state touched by the initialising effect. *)
Record ModalState := mkState {
  st_ingredients : list IngredientItem;
  st_nextId : nat
}.

(** [confidenceThreshold = 0.7] in the props destructuring. *)
Definition effective_threshold (confidenceThreshold : option num) : num :=
  match confidenceThreshold with Some t => t | None => lit 7 1 end.

(** [ingredient.confidence || 0] *)
Definition confidence_or_zero (c : option num) : num :=
  match c with
  | Some x => if truthy_num x then x else f0
  | None => f0
  end.

Fixpoint initial_items (index : nat) (threshold : num) (detected : list DetectedIngredient)
  : list IngredientItem :=
  match detected with
  | [] => []
  | ingredient :: rest =>
    mkItem (js "detected-" ++ show_nat index) (di_name ingredient) f1 (UStr (js "ea"))
           (fle threshold (confidence_or_zero (di_confidence ingredient)))
           Detected (di_confidence ingredient)
    :: initial_items (S index) threshold rest
  end.

(** The [useEffect] that initialises the list. *)
Definition init_effect (visible : bool) (detectedIngredients : list DetectedIngredient)
  (confidenceThreshold : option num) (st : ModalState) : ModalState :=
  if visible && negb (Nat.eqb (List.length detectedIngredients) 0) then
    mkState (initial_items 0 (effective_threshold confidenceThreshold) detectedIngredients)
            (List.length detectedIngredients + 1)
  else st.

(** The handlers of the confirmation list.  [updateIngredient] is called by
    the component with the fields [name], [quantity], [unit] and
    [isSelected]; [item_update] lists these calls. *)
Definition addNewItem (st : ModalState) : ModalState :=
  let newItem := mkItem (js "manual-" ++ show_nat (st_nextId st)) [] f1 (UStr (js "ea"))
                        true Manual None in
  mkState (st_ingredients st ++ [newItem]) (S (st_nextId st)).

Inductive item_update :=
| SetName (name : jstr)
| SetQuantity (quantity : num)
| SetUnit (unit : jstr)
| SetSelected (isSelected : bool).

Definition apply_update (u : item_update) (i : IngredientItem) : IngredientItem :=
  match u with
  | SetName n => mkItem (it_id i) n (it_quantity i) (it_unit i) (it_isSelected i) (it_source i) (it_confidence i)
  | SetQuantity q => mkItem (it_id i) (it_name i) q (it_unit i) (it_isSelected i) (it_source i) (it_confidence i)
  | SetUnit v => mkItem (it_id i) (it_name i) (it_quantity i) (UStr v) (it_isSelected i) (it_source i) (it_confidence i)
  | SetSelected b => mkItem (it_id i) (it_name i) (it_quantity i) (it_unit i) b (it_source i) (it_confidence i)
  end.

Definition updateIngredient (id : jstr) (u : item_update) (st : ModalState) : ModalState :=
  mkState (map (fun ingredient => if jstr_eqb (it_id ingredient) id then apply_update u ingredient
                                  else ingredient) (st_ingredients st))
          (st_nextId st).

(** [!ingredients.find(i => i.id === id)?.isSelected]: [!undefined] is
    [true]. *)
Definition toggleSelection (id : jstr) (st : ModalState) : ModalState :=
  let current := match find (fun i => jstr_eqb (it_id i) id) (st_ingredients st) with
                 | Some i => it_isSelected i
                 | None => false
                 end in
  updateIngredient id (SetSelected (negb current)) st.

Definition selectAll (st : ModalState) : ModalState :=
  mkState (map (apply_update (SetSelected true)) (st_ingredients st)) (st_nextId st).

Definition clearAll (st : ModalState) : ModalState :=
  mkState (map (apply_update (SetSelected false)) (st_ingredients st)) (st_nextId st).

(** The events that change the list: the initialising effect and the
    handlers. *)
Inductive modal_event :=
| EvInit (visible : bool) (detected : list DetectedIngredient) (confidenceThreshold : option num)
| EvAdd
| EvUpdate (id : jstr) (u : item_update)
| EvToggle (id : jstr)
| EvSelectAll
| EvClearAll.

Definition modal_step (st : ModalState) (e : modal_event) : ModalState :=
  match e with
  | EvInit v d t => init_effect v d t st
  | EvAdd => addNewItem st
  | EvUpdate id u => updateIngredient id u st
  | EvToggle id => toggleSelection id st
  | EvSelectAll => selectAll st
  | EvClearAll => clearAll st
  end.

(** [useState([])] and [useState(1)]. *)
Definition modal_initial : ModalState := mkState [] 1.

(** The value of a list of decimal digits, least significant first. *)
Fixpoint digits_value (ds : jstr) : N :=
  match ds with
  | [] => 0%N
  | d :: ds' => ((d - 48) + 10 * digits_value ds')%N
  end.

Definition ids_ok (st : ModalState) : Prop :=
  NoDup (map it_id (st_ingredients st)) /\
  forall i, In i (st_ingredients st) ->
    (exists k, it_id i = js "detected-" ++ show_nat k) \/
    (exists k, it_id i = js "manual-" ++ show_nat k /\ (k < st_nextId st)%nat).

(** * Auxiliary definitions for the properties *)

Definition frank (x : num) : Z * Z * Z :=
  match x with
  | S754_infinity true => (-2, 0, 0)%Z
  | S754_finite true m e => (-1, - e, - Zpos m)%Z
  | S754_zero _ | S754_nan => (0, 0, 0)%Z
  | S754_finite false m e => (1, e, Zpos m)%Z
  | S754_infinity false => (2, 0, 0)%Z
  end.

Definition lexcmp (a b : Z * Z * Z) : comparison :=
  let '(a1, a2, a3) := a in
  let '(b1, b2, b3) := b in
  match Z.compare a1 b1 with
  | Eq => match Z.compare a2 b2 with
          | Eq => Z.compare a3 b3
          | c => c
          end
  | c => c
  end.

Definition lex_lt (a b : Z * Z * Z) : Prop :=
  let '(a1, a2, a3) := a in
  let '(b1, b2, b3) := b in
  (a1 < b1 \/ a1 = b1 /\ (a2 < b2 \/ a2 = b2 /\ a3 < b3))%Z.

Definition is_nonneg (x : num) : bool :=
  match x with
  | S754_zero false | S754_finite false _ _ | S754_infinity false => true
  | _ => false
  end.

Definition dedup_inv (seen : list (jstr * IngredientMatch)) (processed : list IngredientMatch) : Prop :=
  NoDup (map fst seen) /\
  (forall k v, In (k, v) seen ->
     k = match_key v /\ In v processed /\
     forall m, In m processed -> match_key m = k ->
       fle (im_confidence m) (im_confidence v) = true) /\
  (forall m, In m processed -> In (match_key m) (map fst seen)).

Definition conf_not_nan (m : IngredientMatch) : Prop := is_nan (im_confidence m) = false.

(** [calculateIngredientConfidence] as a function of its four inputs. *)
Definition conf_formula (whole noPrice bonus : bool) (n : nat) : num :=
  let confidence := lit 5 1 in
  let confidence := if whole then fadd confidence (lit 3 1) else confidence in
  let confidence := if noPrice then fadd confidence (lit 2 1) else confidence in
  let confidence := fsub confidence (fmul (of_nat n) (lit 1 1)) in
  let confidence := if bonus then fadd confidence (lit 1 1) else confidence in
  js_max f0 (js_min f1 confidence).

Definition conf_formula_ok (n : nat) : bool :=
  forallb (fun w => forallb (fun p => forallb (fun b =>
    is_nonneg (conf_formula w p b n)) [true; false]) [true; false]) [true; false].

(** Every name the detector can report, in lexicon order. *)
Definition lexicon_terms : list jstr := flat_map snd FOOD_INGREDIENTS.

Definition good_match (m : IngredientMatch) : Prop :=
  is_nonneg (im_confidence m) = true /\ In (im_name m) lexicon_terms.

(** The overall confidence as the specification words it: the mean of the
    kept confidences, the two bonuses, clamped to [0, 1]; [0] when nothing
    is kept. *)
Definition overall_confidence_spec (kept : list num) (textLength : nat) : num :=
  match kept with
  | [] => f0
  | _ =>
    let count := List.length kept in
    let mean := fdiv (fold_left fadd kept f0) (of_nat count) in
    let c := if Nat.ltb 100 textLength && Nat.ltb 3 count then fadd mean (lit 1 1) else mean in
    let c := if Nat.ltb 10 count then fadd c (lit 1 1) else c in
    js_max f0 (js_min f1 c)
  end.

Definition dedup_example : list IngredientMatch :=
  [mkMatch (js "Salt") (lit 5 1) (js "Salt 1") Spice;
   mkMatch (js "flour") (lit 4 1) (js "flour") Grain;
   mkMatch (js "salt") (lit 9 1) (js "salt") Spice].

Definition save_example : list IngredientItem :=
  [mkItem (js "detected-0") (js "Flour") f1 (UStr (js "cups")) true Detected None;
   mkItem (js "manual-1") (js "  ") f1 (UStr (js "ea")) true Manual None;
   mkItem (js "manual-2") (js "Salt") f0 (UStr (js "g")) false Manual None].

Definition detected_example : list DetectedIngredient :=
  [mkDetected (js "Flour") (Some (lit 9 1)); mkDetected (js "Salt") None].

Definition spinach_line : jstr := js "Organic Spinach - 1 bag - $2.99".

Definition offline_env (clock : Clock) : OcrEnv :=
  mkEnv clock false (fun _ => Err (js "offline")) (fun _ => Err (js "offline")).

Definition ingredients_list_text : jstr := js "Ingredients: Flour, Sugar, Salt".

(** Every value [calculateIngredientConfidence] can return, and those the
    detector keeps (above 0.3). *)
Definition conf_values : list num :=
  flat_map (fun n => flat_map (fun w => flat_map (fun p =>
    map (fun b => conf_formula w p b n) [true; false]) [true; false]) [true; false]) (seq 0 154).

Definition kept_values : list num := filter (flt (lit 3 1)) conf_values.

(** What the analysis reports about each match it keeps. *)
Definition reported_match (text : jstr) (m : IngredientMatch) : Prop :=
  In (im_context m) (receipt_lines text) /\
  isNonFoodLine (toLowerCase (im_context m)) = false /\
  (exists foods, In (im_category m, foods) FOOD_INGREDIENTS /\ In (im_name m) foods) /\
  includes (toLowerCase (im_context m)) (toLowerCase (im_name m)) = true /\
  im_confidence m =
    calculateIngredientConfidence (im_name m) (im_context m) (category_name (im_category m)) /\
  flt (lit 3 1) (im_confidence m) = true.

(** Non-increasing confidence, and a confidence the detector can keep. *)
Definition conf_desc (a b : IngredientMatch) : Prop := fle (im_confidence b) (im_confidence a) = true.

Definition kept_conf (m : IngredientMatch) : Prop := In (im_confidence m) kept_values.

(** The key [mergeDuplicates] groups by, and the update it applies to the
    entry already stored under that key. *)
Definition merge_key (ingredient : IngredientItem) : jstr :=
  trim (toLowerCase (it_name ingredient)) ++ js "_" ++ unit_to_string (it_unit ingredient).

Definition merge_into (existing ingredient : IngredientItem) : IngredientItem :=
  let confidence :=
    if truthy_opt (it_confidence ingredient) && truthy_opt (it_confidence existing)
    then match it_confidence existing, it_confidence ingredient with
         | Some e, Some i => Some (js_max e i)
         | _, _ => it_confidence existing
         end
    else it_confidence existing in
  mkItem (it_id existing) (it_name existing)
         (fadd (it_quantity existing) (it_quantity ingredient))
         (it_unit existing) (it_isSelected existing) (it_source existing) confidence.

(** The distinct keys of a list of items, in order of first occurrence. *)
Definition merge_keys (ingredients : list IngredientItem) : list jstr :=
  fold_left push_new (map merge_key ingredients) [].

(** The items of one key folded together from the first one on. *)
Definition merge_group (ingredients : list IngredientItem) (k : jstr) : list IngredientItem :=
  match filter (fun i => jstr_eqb (merge_key i) k) ingredients with
  | [] => []
  | g :: gs => [fold_left merge_into gs g]
  end.

(** The map [mergeDuplicates] builds, described by its keys and groups. *)
Definition merge_inv (l : list IngredientItem) (m : list (jstr * IngredientItem)) : Prop :=
  map fst m = merge_keys l /\ Forall (fun kv => merge_group l (fst kv) = [snd kv]) m.

(** Where an extracted ingredient string can come from. *)
Definition extracted_from (text : jstr) (s : jstr) : Prop :=
  (exists keyword, In keyword ingredientKeywords /\
     includes (toLowerCase text) (toLowerCase keyword) = true /\ s = capitalize_words keyword) \/
  (exists matched ingredientsList,
     exec_first ingredientsListPattern (toLowerCase text) = Some (matched, Some ingredientsList) /\
     In s (map clean_item (split_on listSeparator ingredientsList)) /\ (2 < List.length s)%nat).

(** The fixed parts of the text of [callSimpleOCR] around the rendered date
    and time. *)
Definition simple_head : jstr :=
  join nl [[]; js "    GROCERY STORE RECEIPT"; js "    ===================="; js "    "] ++
  nl ++ js "    Date: ".

Definition simple_tail : jstr :=
  nl ++ join nl
    [js "    "; js "    Items:"; js "    - Organic Flour $3.99"; js "    - Sugar $2.49";
     js "    - Salt $1.29"; js "    - Olive Oil $5.99"; js "    - Fresh Tomatoes $4.99";
     js "    - Onions $2.99"; js "    - Garlic $1.99"; js "    - Basil $2.99";
     js "    - Mozzarella Cheese $6.99"; js "    - Parmesan Cheese $4.99"; js "    ";
     js "    Subtotal: $38.70"; js "    Tax: $3.10"; js "    Total: $41.80"; js "    ";
     js "    Thank you for shopping with us!"; js "  "].

(** * Properties *)

(** ** Strings *)

Lemma jstr_eqb_eq (a b : jstr) : jstr_eqb a b = true <-> a = b.
Proof.
  revert b; induction a as [|x a IH]; intros [|y b]; simpl; split; intro H;
    try discriminate; try reflexivity.
  - apply andb_prop in H as [H1 H2]. apply N.eqb_eq in H1. apply IH in H2. subst. reflexivity.
  - injection H as -> ->. rewrite N.eqb_refl. simpl. apply IH. reflexivity.
Qed.

Lemma jstr_eqb_refl (a : jstr) : jstr_eqb a a = true.
Proof. apply jstr_eqb_eq. reflexivity. Qed.

Lemma jstr_eqb_neq (a b : jstr) : jstr_eqb a b = false <-> a <> b.
Proof.
  rewrite <- jstr_eqb_eq. destruct (jstr_eqb a b); split; congruence.
Qed.

(** ** The order of numbers

    On non-NaN values, [SFcompare] is the lexicographic order of the
    following rank. *)

Lemma SFcompare_rank (x y : num) :
  is_nan x = false -> is_nan y = false -> SFcompare x y = Some (lexcmp (frank x) (frank y)).
Proof.
  intros Hx Hy.
  destruct x as [sx|sx| |sx mx ex]; try discriminate;
  destruct y as [sy|sy| |sy my ey]; try discriminate;
  try destruct sx; try destruct sy; try reflexivity; simpl.
  all: try (destruct (Z.compare ex ey); reflexivity).
  rewrite Z.compare_opp, (Z.compare_antisym ex ey).
  destruct (Z.compare ex ey); reflexivity.
Qed.

Lemma lexcmp_Lt (a b : Z * Z * Z) : lexcmp a b = Lt <-> lex_lt a b.
Proof.
  destruct a as [[a1 a2] a3], b as [[b1 b2] b3]; simpl.
  destruct (Z.compare_spec a1 b1); destruct (Z.compare_spec a2 b2);
  destruct (Z.compare_spec a3 b3); split; intro; try discriminate;
  try reflexivity; lia.
Qed.

Lemma lexcmp_Gt (a b : Z * Z * Z) : lexcmp a b = Gt <-> lex_lt b a.
Proof.
  destruct a as [[a1 a2] a3], b as [[b1 b2] b3]; simpl.
  destruct (Z.compare_spec a1 b1); destruct (Z.compare_spec a2 b2);
  destruct (Z.compare_spec a3 b3); split; intro; try discriminate;
  try reflexivity; lia.
Qed.

Lemma flt_rank (x y : num) :
  is_nan x = false -> is_nan y = false -> flt x y = true <-> lex_lt (frank x) (frank y).
Proof.
  intros Hx Hy. unfold flt, SFltb. rewrite SFcompare_rank by assumption.
  rewrite <- lexcmp_Lt. destruct (lexcmp _ _); split; congruence.
Qed.

Lemma fle_rank (x y : num) :
  is_nan x = false -> is_nan y = false -> fle x y = true <-> ~ lex_lt (frank y) (frank x).
Proof.
  intros Hx Hy. unfold fle, SFleb. rewrite SFcompare_rank by assumption.
  rewrite <- lexcmp_Gt. destruct (lexcmp _ _); split; congruence.
Qed.

Ltac rank_tac :=
  repeat match goal with
  | |- context [frank ?x] =>
    let r := fresh "r" in
    destruct (frank x) as [[? ?] ?] eqn:r; clear r
  | H : context [frank ?x] |- _ =>
    let r := fresh "r" in
    destruct (frank x) as [[? ?] ?] eqn:r; clear r
  end; simpl in *; lia.

Lemma fle_refl (x : num) : is_nan x = false -> fle x x = true.
Proof. intros H. apply fle_rank; try assumption. rank_tac. Qed.

Lemma fle_flt_trans (a b c : num) :
  is_nan a = false -> is_nan b = false -> is_nan c = false ->
  fle a b = true -> flt b c = true -> fle a c = true.
Proof.
  intros Ha Hb Hc H1 H2.
  apply fle_rank in H1; try assumption. apply flt_rank in H2; try assumption.
  apply fle_rank; try assumption. revert H1 H2. rank_tac.
Qed.

Lemma flt_false_fle (a b : num) :
  is_nan a = false -> is_nan b = false -> flt a b = false -> fle b a = true.
Proof.
  intros Ha Hb H. apply fle_rank; try assumption. intro Hlt.
  apply (flt_rank a b Ha Hb) in Hlt. congruence.
Qed.

Lemma fle_flt_negb (a b : num) :
  is_nan a = false -> is_nan b = false -> fle a b = negb (flt b a).
Proof.
  intros Ha Hb. destruct (flt b a) eqn:E; simpl.
  - apply flt_rank in E; try assumption.
    destruct (fle a b) eqn:F; [|reflexivity].
    apply fle_rank in F; try assumption. contradiction.
  - apply flt_false_fle; assumption.
Qed.

(** ** Non-negative numbers

    [+0], positive finite numbers and [+Infinity]: the values the
    confidence computations stay in. *)

Lemma nonneg_not_nan (x : num) : is_nonneg x = true -> is_nan x = false.
Proof. destruct x; try destruct s; simpl; congruence. Qed.

Lemma iter_pos_inv {A : Type} (P : A -> Prop) (f : A -> A) :
  (forall a, P a -> P (f a)) -> forall n a, P a -> P (iter_pos f n a).
Proof.
  intros Hf n. induction n as [n IH|n IH|]; intros a Ha; simpl; auto.
Qed.

Lemma shr_1_nonneg (r : shr_record) : (0 <= shr_m r)%Z -> (0 <= shr_m (shr_1 r))%Z.
Proof.
  destruct r as [m r s]; simpl; intro H.
  destruct m as [|p|p]; [simpl; lia| |lia].
  destruct p; simpl; lia.
Qed.

Lemma shr_fexp_nonneg (p em m e : Z) (l : location) :
  (0 <= m)%Z -> (0 <= shr_m (fst (shr_fexp p em m e l)))%Z.
Proof.
  intro Hm. unfold shr_fexp, shr.
  destruct (_ - e)%Z; simpl;
    try (destruct l as [|[]]; simpl; exact Hm).
  apply iter_pos_inv; [exact shr_1_nonneg|].
  destruct l as [|[]]; simpl; exact Hm.
Qed.

Lemma round_nearest_even_nonneg (m : Z) (l : location) :
  (0 <= m)%Z -> (0 <= round_nearest_even m l)%Z.
Proof.
  intro H. destruct l as [|[]]; simpl; try lia.
  destruct (Z.even m); lia.
Qed.

Lemma binary_round_aux_nonneg (p em m e : Z) (l : location) :
  (0 <= m)%Z -> is_nonneg (binary_round_aux p em false m e l) = true.
Proof.
  intro Hm. unfold binary_round_aux.
  pose proof (shr_fexp_nonneg p em m e l Hm) as H1.
  destruct (shr_fexp p em m e l) as [mrs' e'] eqn:E1. simpl in H1.
  pose proof (shr_fexp_nonneg p em (round_nearest_even (shr_m mrs') (loc_of_shr_record mrs')) e'
                loc_Exact (round_nearest_even_nonneg _ _ H1)) as H2.
  destruct (shr_fexp p em _ e' loc_Exact) as [mrs'' e''] eqn:E2. simpl in H2.
  destruct (shr_m mrs'') as [|q|q]; [reflexivity| |lia].
  destruct (Z.leb e'' (em - p)); reflexivity.
Qed.

Lemma binary_round_nonneg (p em : Z) (m : positive) (e : Z) :
  is_nonneg (binary_round p em false m e) = true.
Proof.
  unfold binary_round.
  destruct (shl_align m e _) as [mz ez].
  apply binary_round_aux_nonneg. lia.
Qed.

Lemma fadd_nonneg (x y : num) :
  is_nonneg x = true -> is_nonneg y = true -> is_nonneg (fadd x y) = true.
Proof.
  intros Hx Hy. unfold fadd, SFadd.
  destruct x as [sx|sx| |sx mx ex]; try destruct sx; try discriminate;
  destruct y as [sy|sy| |sy my ey]; try destruct sy; try discriminate;
  try reflexivity.
  simpl. apply binary_round_nonneg.
Qed.

Lemma fdiv_nonneg (x : num) (my : positive) (ey : Z) :
  is_nonneg x = true -> is_nonneg (fdiv x (S754_finite false my ey)) = true.
Proof.
  intros Hx. unfold fdiv, SFdiv.
  destruct x as [sx|sx| |sx mx ex]; try destruct sx; try discriminate;
  try reflexivity.
  unfold SFdiv_core_binary.
  set (m' := match _ with Zpos _ => _ | Z0 => _ | Zneg _ => _ end).
  assert (Hm' : (0 <= m')%Z).
  { subst m'. destruct (_ - _ - _)%Z; try lia. apply Z.shiftl_nonneg. lia. }
  pose proof (Z.div_pos m' (Zpos my) Hm' ltac:(lia)) as Hq.
  unfold Z.div in Hq.
  destruct (Z.div_eucl m' (Zpos my)) as [q r]. simpl.
  apply binary_round_aux_nonneg. exact Hq.
Qed.

Lemma js_min_cases (x y : num) :
  is_nan x = false -> is_nan y = false -> js_min x y = x \/ js_min x y = y.
Proof.
  intros Hx Hy. unfold js_min. rewrite Hx, Hy. simpl.
  destruct (flt y x); [now right|]. destruct (flt x y); [now left|].
  destruct x as [[]|[]| |[] ? ?]; destruct y as [[]|[]| |[] ? ?]; auto.
Qed.

Lemma js_max_f0_nonneg (y : num) : is_nonneg y = true -> js_max f0 y = y.
Proof.
  intros Hy. destruct y as [[]|[]| |[] ? ?]; try discriminate; reflexivity.
Qed.

(** ** The JavaScript [Map] model *)

Section JsMapFacts.
Context {A : Type}.
Implicit Types (m : list (jstr * A)) (k : jstr) (v : A).

Lemma map_get_In k m v : map_get k m = Some v -> In (k, v) m.
Proof.
  induction m as [|[k' v'] m IH]; simpl; [discriminate|].
  destruct (jstr_eqb k k') eqn:E.
  - apply jstr_eqb_eq in E. subst. intros [= ->]. now left.
  - intro H. right. auto.
Qed.

Lemma map_get_None k m : map_get k m = None <-> ~ In k (map fst m).
Proof.
  induction m as [|[k' v'] m IH]; simpl; [tauto|].
  destruct (jstr_eqb k k') eqn:E.
  - apply jstr_eqb_eq in E. subst. split; [discriminate|]. intro H. exfalso. auto.
  - apply jstr_eqb_neq in E. rewrite IH. split; intros H; [intros [H'|H']; auto|auto].
Qed.

Lemma In_map_get k m v : NoDup (map fst m) -> In (k, v) m -> map_get k m = Some v.
Proof.
  induction m as [|[k' v'] m IH]; simpl; [tauto|].
  intros Hnd Hin. inversion Hnd as [|? ? Hnotin Hnd']; subst.
  destruct (jstr_eqb k k') eqn:E.
  - apply jstr_eqb_eq in E. subst. destruct Hin as [[= ->]|Hin]; [reflexivity|].
    exfalso. apply Hnotin. apply in_map_iff. exists (k', v). auto.
  - apply jstr_eqb_neq in E. destruct Hin as [[= -> ->]|Hin]; [congruence|]. auto.
Qed.

Lemma map_set_fst_in k v m : In k (map fst m) -> map fst (map_set k v m) = map fst m.
Proof.
  induction m as [|[k' v'] m IH]; simpl; [tauto|].
  destruct (jstr_eqb k k') eqn:E; simpl; [reflexivity|].
  apply jstr_eqb_neq in E. intros [H|H]; [congruence|]. f_equal. auto.
Qed.

Lemma map_set_fst_notin k v m : ~ In k (map fst m) -> map fst (map_set k v m) = map fst m ++ [k].
Proof.
  induction m as [|[k' v'] m IH]; simpl; [reflexivity|].
  destruct (jstr_eqb k k') eqn:E.
  - apply jstr_eqb_eq in E. subst. tauto.
  - intro H. simpl. f_equal. auto.
Qed.

Lemma In_map_set k v m k' v' :
  NoDup (map fst m) ->
  In (k', v') (map_set k v m) <-> (k' = k /\ v' = v) \/ (k' <> k /\ In (k', v') m).
Proof.
  induction m as [|[k0 v0] m IH]; simpl; intro Hnd.
  - split; [intros [[= -> ->]|[]]; auto|intros [[-> ->]|[_ []]]; auto].
  - inversion Hnd as [|? ? Hnotin Hnd']; subst.
    destruct (jstr_eqb k k0) eqn:E.
    + apply jstr_eqb_eq in E. subst. simpl. split.
      * intros [[= -> ->]|H]; [now left|right; split; [|now right]].
        intros ->. apply Hnotin. apply in_map_iff. exists (k0, v'). auto.
      * intros [[-> ->]|[Hne [[= -> ->]|H]]]; [now left|congruence|now right].
    + apply jstr_eqb_neq in E. simpl. rewrite IH by assumption. split.
      * intros [[= -> ->]|[[-> ->]|[Hne H]]]; [right; auto|now left|right; auto].
      * intros [[-> ->]|[Hne [[= -> ->]|H]]]; [right; now left|now left|right; right; auto].
Qed.

Lemma map_set_nodup k v m : NoDup (map fst m) -> NoDup (map fst (map_set k v m)).
Proof.
  intro Hnd. destruct (in_dec (list_eq_dec N.eq_dec) k (map fst m)) as [H|H].
  - rewrite map_set_fst_in by assumption. exact Hnd.
  - rewrite map_set_fst_notin by assumption.
    apply NoDup_app; auto using NoDup_cons, NoDup_nil.
    intros x Hx [<-|[]]. contradiction.
Qed.
End JsMapFacts.

Lemma In_fst_map_set {A : Type} (k k' : jstr) (v : A) (m : list (jstr * A)) :
  In k' (map fst m) \/ k' = k -> In k' (map fst (map_set k v m)).
Proof.
  induction m as [|[k0 v0] m IH]; simpl.
  { intros [[]| ->]. now left. }
  destruct (jstr_eqb k k0) eqn:E; simpl.
  - apply jstr_eqb_eq in E. subst. intros [[->|H]| ->]; auto.
  - intros [[->|H]| ->]; auto.
Qed.

Lemma fle_trans (a b c : num) :
  is_nan a = false -> is_nan b = false -> is_nan c = false ->
  fle a b = true -> fle b c = true -> fle a c = true.
Proof.
  intros Ha Hb Hc Hab Hbc. apply fle_rank in Hab; try assumption.
  apply fle_rank in Hbc; try assumption. apply fle_rank; try assumption.
  revert Hab Hbc. rank_tac.
Qed.

(** ** Deduplication *)

Lemma dedup_step_inv seen processed i :
  Forall conf_not_nan (processed ++ [i]) ->
  dedup_inv seen processed -> dedup_inv (dedup_step seen i) (processed ++ [i]).
Proof.
  intros Hnan (Hnd & Hent & Hcov).
  rewrite Forall_forall in Hnan. unfold conf_not_nan in Hnan.
  assert (Hi : In i (processed ++ [i])) by (apply in_or_app; right; now left).
  assert (Hp : forall m, In m processed -> In m (processed ++ [i])) by (intros; apply in_or_app; auto).
  unfold dedup_step. set (k := match_key i).
  destruct (map_get k seen) as [old|] eqn:Eg.
  - apply map_get_In in Eg. destruct (Hent _ _ Eg) as (Hk & Hold & Hmax).
    destruct (flt (im_confidence old) (im_confidence i)) eqn:Elt.
    + split; [now apply map_set_nodup|split].
      * intros k' v'. rewrite In_map_set by assumption.
        intros [[-> ->]|[Hne Hin]].
        -- split; [reflexivity|split; [exact Hi|]].
           intros m Hm Hmk. apply in_app_or in Hm. destruct Hm as [Hm|[<-|[]]].
           ++ apply fle_flt_trans with (b := im_confidence old); auto.
              all: apply Hmax; congruence.
           ++ apply fle_refl; auto.
        -- destruct (Hent _ _ Hin) as (Hk' & Hv' & Hmax').
           split; [exact Hk'|split; [auto|]].
           intros m Hm Hmk. apply in_app_or in Hm. destruct Hm as [Hm|[<-|[]]]; auto; congruence.
      * intros m Hm. apply In_fst_map_set. apply in_app_or in Hm.
        destruct Hm as [Hm|[<-|[]]]; auto.
    + split; [exact Hnd|split].
      * intros k' v' Hin. destruct (Hent _ _ Hin) as (Hk' & Hv' & Hmax').
        split; [exact Hk'|split; [auto|]].
        intros m Hm Hmk. apply in_app_or in Hm. destruct Hm as [Hm|[<-|[]]]; auto.
        assert (k' = k) by (subst k; congruence). subst k'.
        assert (v' = old).
        { apply In_map_get in Hin; [|exact Hnd]. apply In_map_get in Eg; [|exact Hnd]. congruence. }
        subst v'. apply flt_false_fle; auto.
      * intros m Hm. apply in_app_or in Hm. destruct Hm as [Hm|[<-|[]]]; auto.
        apply in_map_iff. exists (k, old). auto.
  - apply map_get_None in Eg.
    split; [now apply map_set_nodup|split].
    + intros k' v'. rewrite In_map_set by assumption.
      intros [[-> ->]|[Hne Hin]].
      * split; [reflexivity|split; [exact Hi|]].
        intros m Hm Hmk. apply in_app_or in Hm. destruct Hm as [Hm|[<-|[]]].
        -- exfalso. apply Eg. rewrite <- Hmk. auto.
        -- apply fle_refl; auto.
      * destruct (Hent _ _ Hin) as (Hk' & Hv' & Hmax').
        split; [exact Hk'|split; [auto|]].
        intros m Hm Hmk. apply in_app_or in Hm. destruct Hm as [Hm|[<-|[]]]; auto; congruence.
    + intros m Hm. apply In_fst_map_set. apply in_app_or in Hm.
      destruct Hm as [Hm|[<-|[]]]; auto.
Qed.

Lemma dedup_fold_inv l : forall seen processed,
  Forall conf_not_nan (processed ++ l) ->
  dedup_inv seen processed -> dedup_inv (fold_left dedup_step l seen) (processed ++ l).
Proof.
  induction l as [|i l IH]; simpl; intros seen processed Hnan Hinv.
  - now rewrite app_nil_r.
  - replace (processed ++ i :: l) with ((processed ++ [i]) ++ l) in * by now rewrite <- app_assoc.
    apply IH; [exact Hnan|]. apply dedup_step_inv; [|exact Hinv].
    rewrite Forall_app in Hnan. apply Hnan.
Qed.

Lemma dedup_inv_nil : dedup_inv [] [].
Proof. split; [constructor|split]; simpl; tauto. Qed.

Lemma map_key_snd (seen : list (jstr * IngredientMatch)) :
  (forall k v, In (k, v) seen -> k = match_key v) ->
  map match_key (map snd seen) = map fst seen.
Proof.
  induction seen as [|[k v] seen IH]; simpl; intros H; [reflexivity|].
  f_equal; [symmetry; now apply (H k v); left|]. apply IH. intros; eapply H; right; eauto.
Qed.

(** What [removeDuplicateIngredients] returns: distinct keys, each output
    drawn from the input with a maximal confidence for its key, and every
    input key represented. *)
Lemma removeDuplicateIngredients_spec (l : list IngredientMatch) :
  Forall conf_not_nan l ->
  NoDup (map match_key (removeDuplicateIngredients l)) /\
  (forall r, In r (removeDuplicateIngredients l) ->
     In r l /\ forall m, In m l -> match_key m = match_key r ->
       fle (im_confidence m) (im_confidence r) = true) /\
  (forall m, In m l -> exists r, In r (removeDuplicateIngredients l) /\ match_key r = match_key m).
Proof.
  intros Hnan. unfold removeDuplicateIngredients.
  destruct (dedup_fold_inv l [] [] Hnan dedup_inv_nil) as (Hnd & Hent & Hcov).
  simpl in *. rewrite map_key_snd by (intros k v H; apply (Hent k v H)).
  split; [exact Hnd|split].
  - intros r Hr. apply in_map_iff in Hr. destruct Hr as [[k v] [<- Hin]].
    destruct (Hent _ _ Hin) as (Hk & Hv & Hmax). simpl. split; [exact Hv|].
    intros m Hm Hmk. apply Hmax; congruence.
  - intros m Hm. apply Hcov in Hm. apply in_map_iff in Hm. destruct Hm as [[k v] [Hk Hin]].
    simpl in Hk. subst k. exists v. split; [apply in_map_iff; exists (match_key m, v); auto|].
    symmetry. apply (Hent _ _ Hin).
Qed.

(** ** Per-match confidences are non-negative *)

Lemma calc_conf_formula (food line category : jstr) :
  calculateIngredientConfidence food line category =
  conf_formula (whole_word (toLowerCase line) (toLowerCase food))
               (negb (test pricePattern line)) (bonus_category category)
               (List.length (nonFoodWordsInLine (toLowerCase line))).
Proof. reflexivity. Qed.

Lemma nonFoodWordsInLine_length (lineLower : jstr) :
  (List.length (nonFoodWordsInLine lineLower) <= List.length NON_FOOD_WORDS)%nat.
Proof.
  unfold nonFoodWordsInLine. induction NON_FOOD_WORDS as [|w ws IH]; simpl; [lia|].
  destruct (includes lineLower (toLowerCase w)); simpl; lia.
Qed.

Lemma NON_FOOD_WORDS_length : List.length NON_FOOD_WORDS = 153%nat.
Proof. vm_compute. reflexivity. Qed.

Lemma conf_formula_ok_table : forallb conf_formula_ok (seq 0 154) = true.
Proof. vm_compute. reflexivity. Qed.

Lemma conf_formula_nonneg (w p b : bool) (n : nat) :
  (n <= List.length NON_FOOD_WORDS)%nat -> is_nonneg (conf_formula w p b n) = true.
Proof.
  rewrite NON_FOOD_WORDS_length. intros Hn.
  assert (T : conf_formula_ok n = true).
  { pose proof conf_formula_ok_table as T. rewrite forallb_forall in T.
    apply T. apply in_seq. lia. }
  unfold conf_formula_ok in T.
  assert (Hb : forall x : bool, In x [true; false]) by (intros []; simpl; auto).
  rewrite forallb_forall in T. specialize (T w (Hb w)). cbv beta in T.
  rewrite forallb_forall in T. specialize (T p (Hb p)). cbv beta in T.
  rewrite forallb_forall in T. specialize (T b (Hb b)). cbv beta in T.
  exact T.
Qed.

Lemma calculateIngredientConfidence_nonneg (food line category : jstr) :
  is_nonneg (calculateIngredientConfidence food line category) = true.
Proof.
  rewrite calc_conf_formula. apply conf_formula_nonneg, nonFoodWordsInLine_length.
Qed.

Lemma findIngredientsInLine_good (line lineLower : jstr) :
  Forall good_match (findIngredientsInLine line lineLower).
Proof.
  apply Forall_forall. intros m Hm. unfold findIngredientsInLine in Hm.
  apply in_flat_map in Hm. destruct Hm as [[cat foods] [Hcat Hm]].
  apply in_flat_map in Hm. destruct Hm as [food [Hfood Hm]].
  destruct (includes lineLower (toLowerCase food)); [|destruct Hm].
  destruct (flt (lit 3 1) _); [|destruct Hm].
  destruct Hm as [<-|[]]. split; cbn [im_confidence im_name].
  - apply calculateIngredientConfidence_nonneg.
  - unfold lexicon_terms. apply in_flat_map. exists (cat, foods). auto.
Qed.

Lemma analyze_fold_good (lines : list jstr) : forall acc,
  Forall good_match (fst acc) ->
  Forall good_match (fst (fold_left analyze_line lines acc)).
Proof.
  induction lines as [|line lines IH]; simpl; intros [ings store] H; [exact H|].
  apply IH. unfold analyze_line. simpl in H.
  destruct (isNonFoodLine _); simpl; [exact H|].
  apply Forall_app. split; [exact H|apply findIngredientsInLine_good].
Qed.

Lemma insert_sorted_perm (x : IngredientMatch) (l : list IngredientMatch) :
  Permutation (x :: l) (insert_sorted x l).
Proof.
  induction l as [|y l IH]; simpl; [reflexivity|].
  destruct (flt f0 (sort_cmp y x)); [reflexivity|].
  rewrite perm_swap. constructor. exact IH.
Qed.

Lemma sort_by_confidence_perm (l : list IngredientMatch) :
  Permutation l (sort_by_confidence l).
Proof.
  unfold sort_by_confidence.
  enough (forall acc, Permutation (acc ++ l) (fold_left (fun acc x => insert_sorted x acc) l acc))
    by (apply (H [])).
  induction l as [|x l IH]; simpl; intros acc; [now rewrite app_nil_r|].
  rewrite <- IH. rewrite <- insert_sorted_perm.
  apply Permutation_sym, Permutation_middle.
Qed.

Lemma lexicon_terms_length : List.length lexicon_terms = 456%nat.
Proof. vm_compute. reflexivity. Qed.

Lemma of_nat_finite_table :
  forallb (fun n => match of_nat n with S754_finite false _ _ => true | _ => false end)
    (seq 1 456) = true.
Proof. vm_compute. reflexivity. Qed.

Lemma of_nat_finite (n : nat) :
  (1 <= n <= List.length lexicon_terms)%nat ->
  exists m e, of_nat n = S754_finite false m e.
Proof.
  rewrite lexicon_terms_length.
  intros Hn. pose proof of_nat_finite_table as T. rewrite forallb_forall in T.
  specialize (T n). rewrite in_seq in T. specialize (T ltac:(lia)).
  destruct (of_nat n) as [| | |[] m e]; try discriminate. eauto.
Qed.

Lemma sum_nonneg (l : list num) (s : num) :
  is_nonneg s = true -> Forall (fun c => is_nonneg c = true) l ->
  is_nonneg (fold_left fadd l s) = true.
Proof.
  revert s. induction l as [|c l IH]; simpl; intros s Hs Hl; [exact Hs|].
  inversion Hl; subst. apply IH; [apply fadd_nonneg|]; assumption.
Qed.

Lemma f1_nonneg : is_nonneg f1 = true.
Proof. reflexivity. Qed.

Lemma lit_1_1_nonneg : is_nonneg (lit 1 1) = true.
Proof. reflexivity. Qed.

Lemma js_min_f1_nonneg (c : num) : is_nonneg c = true -> is_nonneg (js_min f1 c) = true.
Proof.
  intros Hc. destruct (js_min_cases f1 c) as [->| ->]; auto using nonneg_not_nan.
Qed.

Lemma sum_confidence_map (l : list IngredientMatch) (s : num) :
  fold_left (fun sum ing => fadd sum (im_confidence ing)) l s =
  fold_left fadd (map im_confidence l) s.
Proof. revert s. induction l as [|x l IH]; simpl; intros s; [reflexivity|apply IH]. Qed.

Lemma calculateOverallConfidence_spec (l : list IngredientMatch) (text : jstr) :
  Forall good_match l -> (List.length l <= List.length lexicon_terms)%nat ->
  calculateOverallConfidence l text =
  overall_confidence_spec (map im_confidence l) (List.length text).
Proof.
  intros Hg Hlen. destruct l as [|x l']; [reflexivity|].
  unfold calculateOverallConfidence, overall_confidence_spec, sum_confidence.
  cbv beta iota zeta. rewrite length_map, sum_confidence_map.
  destruct (of_nat_finite (List.length (x :: l'))) as (m & e & He).
  { simpl List.length in *. lia. }
  rewrite He. symmetry. apply js_max_f0_nonneg, js_min_f1_nonneg.
  assert (Hs : is_nonneg (fold_left fadd (map im_confidence (x :: l')) f0) = true).
  { apply sum_nonneg; [reflexivity|]. apply Forall_map.
    revert Hg. apply Forall_impl. intros a [Ha _]. exact Ha. }
  pose proof (fdiv_nonneg _ m e Hs) as Hd.
  destruct (_ && _), (Nat.ltb 10 _); repeat apply fadd_nonneg; auto using lit_1_1_nonneg.
Qed.

Lemma good_not_nan (l : list IngredientMatch) : Forall good_match l -> Forall conf_not_nan l.
Proof. apply Forall_impl. intros a [Ha _]. apply nonneg_not_nan, Ha. Qed.

(** The kept matches of [analyzeReceiptText] are good and at most one per
    lowercase lexicon term. *)
Lemma kept_matches_good (ings : list IngredientMatch) :
  Forall good_match ings ->
  Forall good_match (sort_by_confidence (removeDuplicateIngredients ings)) /\
  (List.length (sort_by_confidence (removeDuplicateIngredients ings)) <= List.length lexicon_terms)%nat.
Proof.
  intros Hg. pose proof (removeDuplicateIngredients_spec ings (good_not_nan _ Hg)) as (Hnd & Hin & _).
  pose proof (sort_by_confidence_perm (removeDuplicateIngredients ings)) as Hp.
  assert (Hg' : Forall good_match (removeDuplicateIngredients ings)).
  { apply Forall_forall. intros r Hr. rewrite Forall_forall in Hg. apply Hg, Hin, Hr. }
  split; [exact (Permutation_Forall Hp Hg')|].
  rewrite <- (Permutation_length Hp), <- (length_map match_key), <- (length_map toLowerCase lexicon_terms).
  apply NoDup_incl_length; [exact Hnd|].
  intros k Hk. apply in_map_iff in Hk. destruct Hk as [r [<- Hr]].
  unfold match_key. apply in_map. rewrite Forall_forall in Hg'. apply (Hg' r Hr).
Qed.

(** C6: the overall confidence of an analysis is the mean of the kept
    (deduplicated) match confidences, plus 0.1 when the text is longer than
    100 characters and more than 3 matches are kept, plus 0.1 more when
    more than 10 are kept, clamped to [0, 1]; with no kept match the
    analysis is still returned, with an empty ingredient list and
    confidence exactly 0. *)
Theorem analyzeReceiptText_confidence (text : jstr) :
  ra_confidence (analyzeReceiptText text) =
    overall_confidence_spec (map im_confidence (ra_ingredients (analyzeReceiptText text)))
                            (List.length text) /\
  (ra_ingredients (analyzeReceiptText text) = [] -> ra_confidence (analyzeReceiptText text) = f0).
Proof.
  unfold analyzeReceiptText.
  destruct (fold_left analyze_line (receipt_lines text) ([], [])) as [ings store] eqn:E.
  cbn [ra_confidence ra_ingredients].
  assert (Hg : Forall good_match ings).
  { change ings with (fst (ings, store)). rewrite <- E. apply analyze_fold_good. constructor. }
  destruct (kept_matches_good ings Hg) as [Hg' Hlen].
  split.
  - apply calculateOverallConfidence_spec; assumption.
  - intros ->. reflexivity.
Qed.

Lemma is_empty_iff (s : jstr) : is_empty s = true <-> s = [].
Proof. destruct s; simpl; split; congruence. Qed.

Lemma item_errors_nil_iff (index : nat) (l : list IngredientItem) :
  item_errors index l = [] <->
  forall i, In i l -> is_empty (trim (it_name i)) = false /\ fle (it_quantity i) f0 = false.
Proof.
  revert index. induction l as [|x l IH]; intros index; simpl; [split; [tauto|reflexivity]|].
  destruct (is_empty (trim (it_name x))) eqn:E1, (fle (it_quantity x) f0) eqn:E2; simpl.
  - split; [discriminate|intros H; destruct (H x (or_introl eq_refl)); congruence].
  - split; [discriminate|intros H; destruct (H x (or_introl eq_refl)); congruence].
  - split; [discriminate|intros H; destruct (H x (or_introl eq_refl)); congruence].
  - rewrite IH. split.
    + intros H i [<-|Hi]; auto.
    + intros H i Hi. apply H. now right.
Qed.

Lemma item_errors_bad (index : nat) (l : list IngredientItem) :
  item_errors index l <> [] ->
  exists i, In i l /\ (is_empty (trim (it_name i)) = true \/ fle (it_quantity i) f0 = true).
Proof.
  revert index. induction l as [|x l IH]; intros index; simpl; [congruence|].
  destruct (is_empty (trim (it_name x))) eqn:E1; [intros _; exists x; auto|].
  destruct (fle (it_quantity x) f0) eqn:E2; [intros _; exists x; auto|].
  simpl. intros H. destruct (IH (S index) H) as [i [Hi Hb]]. exists i. auto.
Qed.

Lemma fle_f0_flt (q : num) : is_nan q = false -> fle q f0 = negb (flt f0 q).
Proof. intros Hq. apply fle_flt_negb; [exact Hq|reflexivity]. Qed.

Lemma initial_items_length (index : nat) (threshold : num) (detected : list DetectedIngredient) :
  List.length (initial_items index threshold detected) = List.length detected.
Proof. revert index. induction detected as [|d ds IH]; intros index; simpl; auto. Qed.

Lemma initial_items_nth (index : nat) (threshold : num) (detected : list DetectedIngredient) :
  forall k item d,
  nth_error (initial_items index threshold detected) k = Some item ->
  nth_error detected k = Some d ->
  it_quantity item = f1 /\ it_unit item = UStr (js "ea") /\ it_source item = Detected /\
  it_name item = di_name d /\ it_confidence item = di_confidence d /\
  it_isSelected item = fle threshold (confidence_or_zero (di_confidence d)).
Proof.
  revert index. induction detected as [|d0 ds IH]; intros index [|k] item d; simpl;
    try discriminate.
  - intros [= <-] [= <-]. simpl. auto 7.
  - apply IH.
Qed.

Lemma fle_neg_zero (t : num) : fle t (S754_zero true) = fle t f0.
Proof. destruct t as [[]|[]| |[] ? ?]; reflexivity. Qed.

Lemma confidence_or_zero_fle (t : num) (c : option num) :
  match c with Some x => is_nan x = false | None => True end ->
  fle t (confidence_or_zero c) = fle t (match c with Some x => x | None => f0 end).
Proof.
  destruct c as [x|]; [|reflexivity]. simpl.
  destruct x as [[]|[]| |[] ? ?]; simpl; try reflexivity; try discriminate.
  all: intros _; symmetry; apply fle_neg_zero.
Qed.

(** C7: deduplication keeps, for every list of matches whose confidences
    are numbers, at most one match per case-insensitive name, and the one
    kept for a name is an input match whose confidence is maximal among the
    input matches with that name; every input name is kept. *)
Theorem removeDuplicateIngredients_max (ingredients : list IngredientMatch) :
  Forall conf_not_nan ingredients ->
  NoDup (map match_key (removeDuplicateIngredients ingredients)) /\
  (forall r, In r (removeDuplicateIngredients ingredients) ->
     In r ingredients /\
     forall m, In m ingredients -> match_key m = match_key r ->
       fle (im_confidence m) (im_confidence r) = true) /\
  (forall m, In m ingredients ->
     exists r, In r (removeDuplicateIngredients ingredients) /\ match_key r = match_key m).
Proof. apply removeDuplicateIngredients_spec. Qed.

Lemma removeDuplicateIngredients_max_witness :
  NoDup (map match_key (removeDuplicateIngredients dedup_example)).
Proof.
  apply (removeDuplicateIngredients_max dedup_example).
  repeat constructor.
Defined.

(** C8: with every selected quantity a number (the quantity field is only
    ever set to [1] or to [parseFloat(text) || 0]), [validateAndSave] shows
    an alert and saves nothing exactly when no item is selected, or a
    selected item has a name that is empty after trimming, or a selected
    item has a quantity not greater than 0; when items are selected the
    alert lists the violations item by item; otherwise it hands the
    unit-normalised, merged selection to [onSave]. *)
Theorem validateAndSave_outcome (items : list IngredientItem) :
  Forall (fun i => is_nan (it_quantity i) = false) (filter it_isSelected items) ->
  ((exists title message, validateAndSave items = Alert title message) <->
   (filter it_isSelected items = [] \/
    exists i, In i (filter it_isSelected items) /\
              (trim (it_name i) = [] \/ flt f0 (it_quantity i) = false))) /\
  ((filter it_isSelected items <> [] /\
    forall i, In i (filter it_isSelected items) ->
              trim (it_name i) <> [] /\ flt f0 (it_quantity i) = true) ->
   validateAndSave items =
     Saved (mergeDuplicates (map (fun i => with_unit i (normalizeUnit (it_unit i)))
                                 (filter it_isSelected items)))) /\
  (filter it_isSelected items <> [] ->
   (exists i, In i (filter it_isSelected items) /\
              (trim (it_name i) = [] \/ flt f0 (it_quantity i) = false)) ->
   item_errors 0 (filter it_isSelected items) <> [] /\
   validateAndSave items =
     Alert (js "Validation Error") (join nl (item_errors 0 (filter it_isSelected items)))).
Proof.
  intros Hq. rewrite Forall_forall in Hq.
  unfold validateAndSave.
  destruct (filter it_isSelected items) as [|s ss] eqn:Hs.
  { split; [split; [intros _; now left|intros _; eauto]|split; [intros [H _]; congruence|congruence]]. }
  assert (Hgood : forall i, In i (s :: ss) ->
            (is_empty (trim (it_name i)) = false /\ fle (it_quantity i) f0 = false <->
             trim (it_name i) <> [] /\ flt f0 (it_quantity i) = true)).
  { intros i Hi. rewrite fle_f0_flt by (apply Hq, Hi).
    destruct (trim (it_name i)), (flt f0 (it_quantity i)); simpl; split;
      intros [H1 H2]; try discriminate; split; congruence. }
  destruct (item_errors 0 (s :: ss)) as [|e es] eqn:He.
  - pose proof (proj1 (item_errors_nil_iff 0 (s :: ss)) He) as Hall.
    split; [|split].
    + split; [intros (t & m & H); discriminate|].
      intros [H|[i [Hi Hb]]]; [discriminate|].
      destruct (proj1 (Hgood i Hi) (Hall i Hi)) as [H1 H2]. destruct Hb; congruence.
    + intros _. reflexivity.
    + intros _ [i [Hi Hb]].
      destruct (proj1 (Hgood i Hi) (Hall i Hi)) as [H1 H2]. destruct Hb; congruence.
  - assert (Hne : item_errors 0 (s :: ss) <> []) by congruence.
    destruct (item_errors_bad 0 (s :: ss) Hne) as [i [Hi Hb]].
    assert (Hbad : trim (it_name i) = [] \/ flt f0 (it_quantity i) = false).
    { rewrite fle_f0_flt in Hb by (apply Hq, Hi). rewrite is_empty_iff in Hb.
      destruct Hb as [Hb|Hb]; [now left|right; now apply negb_true_iff in Hb]. }
    split; [|split].
    + split; [intros _; right; eauto|intros _; eauto].
    + intros [_ Hall]. exfalso. destruct (Hall i Hi) as [H1 H2]. destruct Hbad; congruence.
    + intros _ _. split; [discriminate|reflexivity].
Qed.

Lemma validateAndSave_outcome_witness :
  exists title message, validateAndSave save_example = Alert title message.
Proof.
  destruct (validateAndSave_outcome save_example ltac:(repeat constructor)) as [[_ H] _].
  apply H. right. exists (mkItem (js "manual-1") (js "  ") f1 (UStr (js "ea")) true Manual None).
  split; [simpl; auto|left; reflexivity].
Defined.

(** C10: when the modal is visible and the detected list is not empty, the
    initialising effect creates one item per detected ingredient, with
    quantity 1, unit "ea", source "detected", the detected name and
    confidence, selected exactly when the confidence (0 when absent) is at
    least the threshold; the threshold defaults to 0.7. *)
Theorem init_effect_items (visible : bool) (detected : list DetectedIngredient)
  (confidenceThreshold : option num) (st : ModalState) :
  visible = true -> detected <> [] ->
  Forall (fun d => match di_confidence d with Some x => is_nan x = false | None => True end) detected ->
  effective_threshold None = lit 7 1 /\
  List.length (st_ingredients (init_effect visible detected confidenceThreshold st)) = List.length detected /\
  forall k item d,
    nth_error (st_ingredients (init_effect visible detected confidenceThreshold st)) k = Some item ->
    nth_error detected k = Some d ->
    it_quantity item = f1 /\ it_unit item = UStr (js "ea") /\ it_source item = Detected /\
    it_name item = di_name d /\ it_confidence item = di_confidence d /\
    it_isSelected item =
      fle (effective_threshold confidenceThreshold)
          (match di_confidence d with Some x => x | None => f0 end).
Proof.
  intros -> Hne Hnan. unfold init_effect.
  destruct detected as [|d0 ds]; [congruence|]. simpl andb. cbn [st_ingredients].
  split; [reflexivity|split; [apply initial_items_length|]].
  intros k item d Hi Hd.
  destruct (initial_items_nth _ _ _ k item d Hi Hd) as (H1 & H2 & H3 & H4 & H5 & H6).
  repeat (split; [assumption|]). rewrite H6. apply confidence_or_zero_fle.
  rewrite Forall_forall in Hnan. apply Hnan. eapply nth_error_In. exact Hd.
Qed.

Lemma init_effect_items_witness :
  List.length (st_ingredients (init_effect true detected_example None (mkState [] 1))) = 2%nat.
Proof.
  destruct (init_effect_items true detected_example None (mkState [] 1) eq_refl
              ltac:(discriminate) ltac:(repeat constructor)) as (_ & H & _).
  exact H.
Defined.

Lemma analyze_fold_store (lines : list jstr) : forall acc,
  snd (fold_left analyze_line lines acc) =
  snd acc ++ filter (fun l => isNonFoodLine (toLowerCase l) && isStoreInfo (toLowerCase l)) lines.
Proof.
  induction lines as [|line lines IH]; intros [ings store]; simpl; [now rewrite app_nil_r|].
  rewrite IH. unfold analyze_line. simpl.
  destruct (isNonFoodLine (toLowerCase line)), (isStoreInfo (toLowerCase line)); simpl;
    rewrite ?app_nil_r, <- ?app_assoc; reflexivity.
Qed.

Lemma finish_ocr_ingredients (extractedText : jstr) (confidence : num) :
  exists r, finish_ocr extractedText confidence = Ok r /\
    ocr_text r = extractedText /\
    ocr_ingredients r = map im_name (ra_ingredients (analyzeReceiptText extractedText)).
Proof. eexists. split; [reflexivity|split; reflexivity]. Qed.


Lemma existsb_jstr_In (x : jstr) (l : list jstr) : existsb (jstr_eqb x) l = true -> In x l.
Proof.
  intros H. apply existsb_exists in H. destruct H as [y [Hy E]].
  apply jstr_eqb_eq in E. now subst.
Qed.

(** C1: on the line "Organic Spinach - 1 bag - $2.99" the spinach
    candidate (vegetable) scores 0.5 + 0.3 (whole word) - 0.1 for each of
    the seven non-food vocabulary entries found in the lowercased line
    (bag, organic, 1, 2, 9, $, g) + 0.1 (category), that is the double just
    below 0.2; this is not above the 0.3 threshold, so no match is emitted;
    the price extraction yields ["$2.99"]. *)
Theorem spinach_line_analysis :
  nonFoodWordsInLine (toLowerCase spinach_line) =
    [js "bag"; js "organic"; js "1"; js "2"; js "9"; js "$"; js "g"] /\
  whole_word (toLowerCase spinach_line) (toLowerCase (js "spinach")) = true /\
  test pricePattern spinach_line = true /\
  calculateIngredientConfidence (js "spinach") spinach_line (category_name Vegetable) =
    S754_finite false 7205759403792793 (-55) /\
  flt (calculateIngredientConfidence (js "spinach") spinach_line (category_name Vegetable)) (lit 2 1) = true /\
  flt (lit 3 1) (calculateIngredientConfidence (js "spinach") spinach_line (category_name Vegetable)) = false /\
  ra_ingredients (analyzeReceiptText spinach_line) = [] /\
  ra_prices (analyzeReceiptText spinach_line) = [js "$2.99"].
Proof. repeat split; vm_compute; reflexivity. Qed.

Lemma spinach_line_counterexample :
  In (js "spinach") vegetable_foods /\
  ~ exists m, In m (ra_ingredients (analyzeReceiptText spinach_line)) /\ im_name m = js "spinach".
Proof.
  split; [apply existsb_jstr_In; vm_compute; reflexivity|].
  intros [m [H _]]. vm_compute in H. exact H.
Qed.

(** C2: for every term and line, if the lowercased line contains the
    lowercased term as a whole word in the sense of the code (" t "
    inside, "t " at the start or " t" at the end), the line contains no
    price and none of the non-food vocabulary entries, then the confidence
    computed for the term on the line is 1.0 after clamping. *)
Theorem whole_word_no_price_confidence (food line category : jstr) :
  whole_word (toLowerCase line) (toLowerCase food) = true ->
  test pricePattern line = false ->
  nonFoodWordsInLine (toLowerCase line) = [] ->
  calculateIngredientConfidence food line category = f1.
Proof.
  intros Hw Hp Hn. rewrite calc_conf_formula, Hw, Hp, Hn.
  destruct (bonus_category category); vm_compute; reflexivity.
Qed.

Lemma whole_word_no_price_confidence_witness :
  calculateIngredientConfidence (js "cumin") (js "cumin seed") (category_name Spice) = f1.
Proof. apply whole_word_no_price_confidence; vm_compute; reflexivity. Defined.

Lemma whole_word_penalty_counterexample :
  In (js "cumin") spice_foods /\
  whole_word (toLowerCase (js "fresh cumin")) (toLowerCase (js "cumin")) = true /\
  test pricePattern (js "fresh cumin") = false /\
  calculateIngredientConfidence (js "cumin") (js "fresh cumin") (category_name Spice) =
    S754_finite false 8106479329266893 (-53) /\
  calculateIngredientConfidence (js "cumin") (js "fresh cumin") (category_name Spice) <> f1.
Proof.
  split; [apply existsb_jstr_In; vm_compute; reflexivity|].
  repeat split; vm_compute; try reflexivity; discriminate.
Qed.

(** C3: the store-info list of an analysis holds exactly the (trimmed)
    lines that are classified as noise and contain a word of the retailer
    vocabulary, in order; a line not classified as noise is never
    collected, whatever it contains. *)
Theorem analyzeReceiptText_storeInfo (text : jstr) :
  ra_storeInfo (analyzeReceiptText text) =
  filter (fun line => isNonFoodLine (toLowerCase line) && isStoreInfo (toLowerCase line))
         (receipt_lines text).
Proof.
  unfold analyzeReceiptText.
  pose proof (analyze_fold_store (receipt_lines text) ([], [])) as H.
  destruct (fold_left analyze_line (receipt_lines text) ([], [])) as [ings store].
  cbn [ra_storeInfo snd] in *. exact H.
Qed.

Lemma store_line_counterexample :
  isNonFoodLine (toLowerCase (js "Kroger Marketplace")) = false /\
  isStoreInfo (toLowerCase (js "Kroger Marketplace")) = true /\
  ra_storeInfo (analyzeReceiptText (js "Kroger Marketplace")) = [].
Proof. repeat split; vm_compute; reflexivity. Qed.

Lemma callSimpleOCR_shape (clock : Clock) :
  callSimpleOCR clock =
  simple_head ++ localeDate clock ++ nl ++ js "    Time: " ++ localeTime clock ++ simple_tail.
Proof.
  unfold callSimpleOCR, simple_head, simple_tail. cbn [join].
  rewrite <- !app_assoc. reflexivity.
Qed.

Lemma no_nl_app (d1 d2 x1 x2 : jstr) :
  ~ In 10%N d1 -> ~ In 10%N d2 -> d1 ++ nl ++ x1 = d2 ++ nl ++ x2 -> d1 = d2 /\ x1 = x2.
Proof.
  revert d2. induction d1 as [|a d1 IH]; intros [|b d2] H1 H2 E; cbn [app nl] in E.
  - injection E as E. auto.
  - injection E as Eb _. subst b. exfalso. apply H2. now left.
  - injection E as Ea _. subst a. exfalso. apply H1. now left.
  - injection E as Eab E. subst b.
    destruct (IH d2) as [-> ->]; [intro; apply H1; now right|intro; apply H2; now right|exact E|].
    auto.
Qed.

Lemma no_nl_of_existsb (s : jstr) : existsb (N.eqb 10) s = false -> ~ In 10%N s.
Proof.
  intros H Hin. assert (E : existsb (N.eqb 10) s = true) by (apply existsb_exists; exists 10%N; auto).
  congruence.
Qed.

(** C4: the deterministic-stub method returns the same result for every
    image and environment: the fixed canonical text, confidence 0.85, the
    ingredients Flour, Sugar, Salt, Oil, Cheese, Tomato, Onion, Garlic,
    Basil, Olive Oil and "- organic flour", and no analysis.  The
    fixed-sample method succeeds with a result that is a function of its
    text, and its text embeds the rendered date and time: when the date
    renderings contain no line break, two invocations give the same text,
    and the same result, exactly when both the dates and the times agree. *)
Theorem extractTextFromReceipt_determinism :
  (forall env imageUri, exists r,
     extractTextFromReceipt env Mock imageUri = Ok r /\
     ocr_text r = mockReceiptText /\ ocr_confidence r = lit 85 2 /\
     ocr_ingredients r =
       [js "Flour"; js "Sugar"; js "Salt"; js "Oil"; js "Cheese"; js "Tomato"; js "Onion";
        js "Garlic"; js "Basil"; js "Olive Oil"; js "- organic flour"] /\
     ocr_smartAnalysis r = None) /\
  (forall env1 env2 imageUri1 imageUri2,
     ~ In 10%N (localeDate (env_clock env1)) -> ~ In 10%N (localeDate (env_clock env2)) ->
     exists r1 r2,
       extractTextFromReceipt env1 Simple imageUri1 = Ok r1 /\
       extractTextFromReceipt env2 Simple imageUri2 = Ok r2 /\
       (r1 = r2 <-> ocr_text r1 = ocr_text r2) /\
       (ocr_text r1 = ocr_text r2 <->
          localeDate (env_clock env1) = localeDate (env_clock env2) /\
          localeTime (env_clock env1) = localeTime (env_clock env2))).
Proof.
  split.
  - intros env imageUri.
    exists (mkOCR mockReceiptText (lit 85 2) (extractIngredients mockReceiptText) None).
    split; [reflexivity|split; [reflexivity|split; [reflexivity|split; [|reflexivity]]]].
    cbn [ocr_ingredients]. vm_compute. reflexivity.
  - intros env1 env2 imageUri1 imageUri2 H1 H2.
    destruct (env_clock env1) as [d1 t1] eqn:C1, (env_clock env2) as [d2 t2] eqn:C2.
    cbn [localeDate localeTime] in *.
    set (text1 := callSimpleOCR (mkClock d1 t1)). set (text2 := callSimpleOCR (mkClock d2 t2)).
    exists (mkOCR text1 (js_max (lit 6 1) (ra_confidence (analyzeReceiptText text1)))
              (map im_name (ra_ingredients (analyzeReceiptText text1))) (Some (analyzeReceiptText text1))).
    exists (mkOCR text2 (js_max (lit 6 1) (ra_confidence (analyzeReceiptText text2)))
              (map im_name (ra_ingredients (analyzeReceiptText text2))) (Some (analyzeReceiptText text2))).
    split; [unfold extractTextFromReceipt, finish_ocr; rewrite C1; reflexivity|].
    split; [unfold extractTextFromReceipt, finish_ocr; rewrite C2; reflexivity|].
    cbn [ocr_text]. split; [split; [intro E; exact (f_equal ocr_text E)|intro E; rewrite E; reflexivity]|].
    split.
    + unfold text1, text2. rewrite !callSimpleOCR_shape. cbn [localeDate localeTime].
      intro E. apply app_inv_head in E. destruct (no_nl_app _ _ _ _ H1 H2 E) as [Ed E'].
      apply app_inv_head in E'. apply app_inv_tail in E'. auto.
    + intros [-> ->]. reflexivity.
Qed.

Lemma extractTextFromReceipt_determinism_witness :
  exists r1 r2,
    extractTextFromReceipt (offline_env (mkClock (js "10/18/2026") (js "9:00:00 AM"))) Simple (js "a.jpg") = Ok r1 /\
    extractTextFromReceipt (offline_env (mkClock (js "10/19/2026") (js "9:00:00 AM"))) Simple (js "b.jpg") = Ok r2 /\
    (r1 = r2 <-> ocr_text r1 = ocr_text r2) /\
    (ocr_text r1 = ocr_text r2 <->
       js "10/18/2026" = js "10/19/2026" /\ js "9:00:00 AM" = js "9:00:00 AM").
Proof.
  exact (proj2 extractTextFromReceipt_determinism
           (offline_env (mkClock (js "10/18/2026") (js "9:00:00 AM")))
           (offline_env (mkClock (js "10/19/2026") (js "9:00:00 AM")))
           (js "a.jpg") (js "b.jpg")
           (no_nl_of_existsb (js "10/18/2026") eq_refl)
           (no_nl_of_existsb (js "10/19/2026") eq_refl)).
Defined.

Lemma simple_ocr_counterexample :
  extractTextFromReceipt (offline_env (mkClock (js "10/18/2026") (js "9:00:00 AM"))) Simple (js "receipt.jpg") <>
  extractTextFromReceipt (offline_env (mkClock (js "10/19/2026") (js "9:00:00 AM"))) Simple (js "receipt.jpg").
Proof.
  intro H.
  change (finish_ocr (callSimpleOCR (mkClock (js "10/18/2026") (js "9:00:00 AM"))) (lit 6 1) =
          finish_ocr (callSimpleOCR (mkClock (js "10/19/2026") (js "9:00:00 AM"))) (lit 6 1)) in H.
  destruct (finish_ocr_ingredients (callSimpleOCR (mkClock (js "10/18/2026") (js "9:00:00 AM"))) (lit 6 1))
    as (r1 & E1 & T1 & _).
  destruct (finish_ocr_ingredients (callSimpleOCR (mkClock (js "10/19/2026") (js "9:00:00 AM"))) (lit 6 1))
    as (r2 & E2 & T2 & _).
  rewrite E1, E2 in H. injection H as H. subst r2. rewrite T1 in T2.
  vm_compute in T2. discriminate T2.
Qed.




(** C9: for the raw text "Ingredients: Flour, Sugar, Salt" the analysis
    applied to OCR text reports the lexicon matches salt and flour, in that
    order, and these names are the ingredients of the OCR result; the
    explicit ingredient-list scan belongs to [extractIngredients], which
    the pipeline applies only to the fixed mock text, and which on this
    text returns Flour, Sugar, Salt (keyword matches) followed by flour,
    sugar, salt (the list scan, run on the lowercased text). *)
Theorem ingredients_list_text_analysis :
  map im_name (ra_ingredients (analyzeReceiptText ingredients_list_text)) = [js "salt"; js "flour"] /\
  (forall confidence, exists r,
     finish_ocr ingredients_list_text confidence = Ok r /\
     ocr_ingredients r = [js "salt"; js "flour"]) /\
  extractIngredients ingredients_list_text =
    [js "Flour"; js "Sugar"; js "Salt"; js "flour"; js "sugar"; js "salt"].
Proof.
  split; [vm_compute; reflexivity|split; [|vm_compute; reflexivity]].
  intros confidence.
  destruct (finish_ocr_ingredients ingredients_list_text confidence) as (r & E & _ & I).
  exists r. split; [exact E|]. rewrite I. vm_compute. reflexivity.
Qed.

Lemma ingredients_list_counterexample :
  map im_name (ra_ingredients (analyzeReceiptText ingredients_list_text)) <>
    [js "Flour"; js "Sugar"; js "Salt"] /\
  extractIngredients ingredients_list_text <> [js "Flour"; js "Sugar"; js "Salt"].
Proof. split; vm_compute; discriminate. Qed.

(** ** Item identifiers *)

Lemma digits_rev_value (f : nat) (n : N) :
  (1 <= f)%nat -> (n < 10 ^ N.of_nat f)%N -> digits_value (digits_rev f n) = n.
Proof.
  revert n. induction f as [|f IH]; intros n Hf Hn; [lia|].
  cbn [digits_rev]. destruct (n <? 10)%N eqn:E.
  - apply N.ltb_lt in E. cbn [digits_value]. rewrite N.mod_small by lia. lia.
  - apply N.ltb_ge in E. cbn [digits_value]. rewrite IH.
    + pose proof (N.div_mod n 10 ltac:(discriminate)). pose proof (N.mod_lt n 10 ltac:(discriminate)). clear Hn IH.
      set (a := (n mod 10)%N) in *. set (b := (n / 10)%N) in *. clearbody a b. lia.
    + destruct f; [|lia]. simpl in Hn. lia.
    + rewrite Nat2N.inj_succ, N.pow_succ_r' in Hn.
      apply N.Div0.div_lt_upper_bound; lia.
Qed.

Lemma show_N_value (n : N) : digits_value (rev (show_N n)) = n.
Proof.
  unfold show_N. rewrite rev_involutive. apply digits_rev_value; [lia|].
  rewrite Nat2N.inj_succ, N2Nat.id.
  destruct (N.eq_dec n 0) as [->|Hn]; [reflexivity|].
  destruct (N.log2_spec n) as [_ H]; [lia|].
  eapply N.lt_le_trans; [exact H|]. apply N.pow_le_mono_l. lia.
Qed.

Lemma show_nat_inj (a b : nat) : show_nat a = show_nat b -> a = b.
Proof.
  unfold show_nat. intros H. apply Nat2N.inj.
  rewrite <- (show_N_value (N.of_nat a)), <- (show_N_value (N.of_nat b)), H. reflexivity.
Qed.

Lemma detected_manual_neq (a b : jstr) : js "detected-" ++ a <> js "manual-" ++ b.
Proof. discriminate. Qed.

Lemma initial_items_ids (index : nat) (threshold : num) (detected : list DetectedIngredient) :
  map it_id (initial_items index threshold detected) =
  map (fun k => js "detected-" ++ show_nat k) (seq index (List.length detected)).
Proof.
  revert index. induction detected as [|d ds IH]; intros index; simpl; [reflexivity|].
  f_equal. apply IH.
Qed.

Lemma apply_update_id (u : item_update) (i : IngredientItem) : it_id (apply_update u i) = it_id i.
Proof. destruct u; reflexivity. Qed.

Lemma map_update_ids (f : IngredientItem -> IngredientItem) (l : list IngredientItem) :
  (forall i, it_id (f i) = it_id i) -> map it_id (map f l) = map it_id l.
Proof. intros H. rewrite map_map. apply map_ext. exact H. Qed.

Lemma ids_ok_map (f : IngredientItem -> IngredientItem) (st : ModalState) :
  (forall i, it_id (f i) = it_id i) ->
  ids_ok st -> ids_ok (mkState (map f (st_ingredients st)) (st_nextId st)).
Proof.
  intros Hf [Hnd Hform]. split; simpl.
  - rewrite map_update_ids by exact Hf. exact Hnd.
  - intros i Hi. apply in_map_iff in Hi. destruct Hi as [j [<- Hj]].
    rewrite Hf. apply Hform, Hj.
Qed.

Lemma ids_ok_step (st : ModalState) (e : modal_event) : ids_ok st -> ids_ok (modal_step st e).
Proof.
  intros Hok. destruct e as [v d t| |id u|id| |]; simpl.
  - unfold init_effect. destruct (v && negb (Nat.eqb (List.length d) 0)); [|exact Hok].
    split; simpl.
    + rewrite initial_items_ids. apply NoDup_map_inv with (f := fun s => digits_value (rev (skipn 9 s))).
      rewrite map_map. simpl.
      replace (map (fun x => digits_value (rev (show_nat x))) (seq 0 (List.length d)))
        with (map N.of_nat (seq 0 (List.length d))).
      * apply NoDup_map_inv with (f := N.to_nat). rewrite map_map.
        rewrite (map_ext _ (fun x => x)) by (intros; apply Nat2N.id).
        rewrite map_id. apply seq_NoDup.
      * apply map_ext. intros x. unfold show_nat. rewrite show_N_value. reflexivity.
    + intros i Hi. left. assert (Hin : In (it_id i) (map it_id (initial_items 0 (effective_threshold t) d)))
        by (apply in_map, Hi).
      rewrite initial_items_ids in Hin. apply in_map_iff in Hin. destruct Hin as [k [Hk _]].
      exists k. symmetry. exact Hk.
  - destruct Hok as [Hnd Hform]. unfold addNewItem. split; simpl.
    + rewrite map_app. simpl. apply NoDup_app; [exact Hnd|repeat constructor; simpl; tauto|].
      intros x Hx [<-|[]]. apply in_map_iff in Hx. destruct Hx as [i [Hid Hi]].
      destruct (Hform i Hi) as [[k Hk]|[k [Hk Hlt]]]; rewrite Hk in Hid.
      * apply (detected_manual_neq _ _ Hid).
      * apply (app_inv_head (js "manual-")) in Hid. apply show_nat_inj in Hid. lia.
    + intros i Hi. apply in_app_or in Hi. destruct Hi as [Hi|[<-|[]]].
      * destruct (Hform i Hi) as [H|[k [Hk Hlt]]]; [now left|right; exists k; split; [exact Hk|lia]].
      * right. exists (st_nextId st). simpl. split; [reflexivity|lia].
  - apply ids_ok_map; [|exact Hok].
    intros i. destruct (jstr_eqb (it_id i) id); [apply apply_update_id|reflexivity].
  - apply ids_ok_map; [|exact Hok].
    intros i. destruct (jstr_eqb (it_id i) id); [apply apply_update_id|reflexivity].
  - apply ids_ok_map; [apply apply_update_id|exact Hok].
  - apply ids_ok_map; [apply apply_update_id|exact Hok].
Qed.

Lemma ids_ok_events (events : list modal_event) : forall st,
  ids_ok st -> ids_ok (fold_left modal_step events st).
Proof.
  induction events as [|e es IH]; simpl; intros st H; [exact H|]. apply IH, ids_ok_step, H.
Qed.

(** X: in every state the confirmation list reaches from its initial state
    through the initialising effect and the handlers (add, edit, toggle,
    select all, clear all), the item ids are pairwise distinct. *)
Theorem modal_ids_distinct (events : list modal_event) :
  NoDup (map it_id (st_ingredients (fold_left modal_step events modal_initial))).
Proof.
  apply ids_ok_events. split; simpl; [constructor|tauto].
Qed.

Lemma NoDup_map_same (f : IngredientItem -> jstr) (l : list IngredientItem) (x y : IngredientItem) :
  NoDup (map f l) -> In x l -> In y l -> f x = f y -> x = y.
Proof.
  induction l as [|a l IH]; simpl; [tauto|]. intros Hnd Hx Hy E.
  inversion Hnd as [|? ? Hnot Hnd']; subst.
  destruct Hx as [<-|Hx], Hy as [<-|Hy]; auto.
  - exfalso. apply Hnot. rewrite E. apply in_map, Hy.
  - exfalso. apply Hnot. rewrite <- E. apply in_map, Hx.
Qed.

Lemma find_map_update (id : jstr) (c : bool) (l : list IngredientItem) :
  find (fun i => jstr_eqb (it_id i) id)
       (map (fun i => if jstr_eqb (it_id i) id then apply_update (SetSelected c) i else i) l) =
  option_map (apply_update (SetSelected c)) (find (fun i => jstr_eqb (it_id i) id) l).
Proof.
  induction l as [|x l IH]; simpl; [reflexivity|].
  destruct (jstr_eqb (it_id x) id) eqn:E; simpl; [rewrite E; reflexivity|rewrite E; exact IH].
Qed.

(** X: toggling the same id twice restores the state, when ids are
    distinct (as they are in every reachable state, see
    [modal_ids_distinct]). *)
Theorem toggleSelection_twice (id : jstr) (st : ModalState) :
  NoDup (map it_id (st_ingredients st)) ->
  toggleSelection id (toggleSelection id st) = st.
Proof.
  intros Hnd. destruct st as [items nextId]. unfold toggleSelection, updateIngredient.
  cbn [st_ingredients st_nextId] in *.
  rewrite find_map_update.
  destruct (find (fun i => jstr_eqb (it_id i) id) items) as [x|] eqn:Ef; simpl.
  - apply find_some in Ef. destruct Ef as [Hx Ex].
    rewrite map_map. f_equal. rewrite <- (map_id items) at 2. apply map_ext_in.
    intros y Hy. destruct (jstr_eqb (it_id y) id) eqn:Ey; simpl; rewrite ?Ey; [|reflexivity].
    rewrite negb_involutive.
    assert (x = y) as <-.
    { apply (NoDup_map_same it_id items); auto. apply jstr_eqb_eq in Ex, Ey. congruence. }
    destruct x; reflexivity.
  - rewrite map_map. f_equal. rewrite <- (map_id items) at 2. apply map_ext_in.
    intros y Hy. pose proof (find_none _ _ Ef y Hy) as Ey. simpl in Ey. rewrite ?Ey; simpl; rewrite ?Ey; reflexivity.
Qed.

Lemma toggleSelection_twice_witness :
  NoDup (map it_id (st_ingredients (addNewItem modal_initial))) /\
  toggleSelection (js "manual-1") (toggleSelection (js "manual-1") (addNewItem modal_initial)) =
  addNewItem modal_initial.
Proof.
  split.
  - repeat constructor. simpl. tauto.
  - apply toggleSelection_twice. repeat constructor. simpl. tauto.
Defined.

Lemma item_errors_blank (index : nat) (l : list IngredientItem) (i : IngredientItem) :
  In i l -> is_empty (trim (it_name i)) = true -> item_errors index l <> [].
Proof.
  revert index. induction l as [|x l IH]; simpl; intros index Hi He; [destruct Hi|].
  destruct Hi as [<-|Hi]; [rewrite He; discriminate|].
  destruct (is_empty (trim (it_name x))); [discriminate|].
  destruct (fle (it_quantity x) f0); [discriminate|]. simpl. eapply IH; eauto.
Qed.

(** X: saving right after adding an item always fails validation: the new
    item is selected and has an empty name. *)
Theorem addNewItem_then_save (st : ModalState) :
  exists message, validateAndSave (st_ingredients (addNewItem st)) = Alert (js "Validation Error") message.
Proof.
  set (newItem := mkItem (js "manual-" ++ show_nat (st_nextId st)) [] f1 (UStr (js "ea")) true Manual None).
  assert (Hsel : filter it_isSelected (st_ingredients (addNewItem st)) =
                 filter it_isSelected (st_ingredients st) ++ [newItem]).
  { unfold addNewItem. cbn [st_ingredients]. rewrite filter_app. reflexivity. }
  assert (He : item_errors 0 (filter it_isSelected (st_ingredients st) ++ [newItem]) <> []).
  { apply item_errors_blank with (i := newItem); [apply in_or_app; right; now left|reflexivity]. }
  unfold validateAndSave. rewrite Hsel.
  destruct (filter it_isSelected (st_ingredients st) ++ [newItem]) as [|a l] eqn:E.
  { destruct (filter it_isSelected (st_ingredients st)); discriminate. }
  destruct (item_errors 0 (a :: l)) as [|e es]; [congruence|]. eexists. reflexivity.
Qed.

(** X: after "clear all", saving reports that no item is selected. *)
Theorem clearAll_then_save (st : ModalState) :
  validateAndSave (st_ingredients (clearAll st)) =
  Alert (js "No Items Selected") (js "Please select at least one ingredient to save.").
Proof.
  unfold validateAndSave, clearAll. simpl.
  induction (st_ingredients st) as [|x l IH]; simpl; [reflexivity|exact IH].
Qed.

(** ** What the analysis reports *)

(** On kept values the comparator [b.confidence - a.confidence] has the
    sign of the comparison, and the values lie in [0, 1]. *)
Lemma kept_values_table :
  forallb (fun a => negb (is_nan a) && fle a f1 &&
    forallb (fun b => Bool.eqb (flt f0 (fsub a b)) (flt b a)) kept_values) kept_values = true.
Proof. vm_compute. reflexivity. Qed.

Lemma forallb_In {A : Type} (f : A -> bool) (l : list A) (x : A) :
  forallb f l = true -> In x l -> f x = true.
Proof. rewrite forallb_forall. auto. Qed.

Lemma kept_value_props (a b : num) :
  In a kept_values -> In b kept_values ->
  is_nan a = false /\ fle a f1 = true /\ flt f0 (fsub a b) = flt b a.
Proof.
  intros Ha Hb. pose proof (forallb_In _ _ a kept_values_table Ha) as T.
  apply andb_prop in T. destruct T as [T1 T2]. apply andb_prop in T1. destruct T1 as [T0 T1].
  pose proof (forallb_In _ _ b T2 Hb) as T3. apply Bool.eqb_prop in T3.
  apply negb_true_iff in T0. split; [exact T0|split; assumption].
Qed.

Lemma conf_formula_in_values (w p b : bool) (n : nat) :
  (n <= 153)%nat -> In (conf_formula w p b n) conf_values.
Proof.
  intros Hn. unfold conf_values. apply in_flat_map. exists n. split; [apply in_seq; lia|].
  apply in_flat_map. exists w. split; [destruct w; simpl; auto|].
  apply in_flat_map. exists p. split; [destruct p; simpl; auto|].
  apply (in_map (fun b0 => conf_formula w p b0 n)). destruct b; simpl; auto.
Qed.

Lemma calculateIngredientConfidence_kept (food line category : jstr) :
  flt (lit 3 1) (calculateIngredientConfidence food line category) = true ->
  In (calculateIngredientConfidence food line category) kept_values.
Proof.
  intros Hk. unfold kept_values. apply (proj2 (filter_In _ _ _)). split; [|exact Hk].
  rewrite calc_conf_formula. apply conf_formula_in_values.
  pose proof (nonFoodWordsInLine_length (toLowerCase line)) as H.
  rewrite NON_FOOD_WORDS_length in H. exact H.
Qed.

Lemma findIngredientsInLine_reported (text line : jstr) :
  In line (receipt_lines text) -> isNonFoodLine (toLowerCase line) = false ->
  Forall (reported_match text) (findIngredientsInLine line (toLowerCase line)).
Proof.
  intros Hl Hnf. apply Forall_forall. intros m Hm. unfold findIngredientsInLine in Hm.
  apply in_flat_map in Hm. destruct Hm as [[cat foods] [Hcat Hm]].
  apply in_flat_map in Hm. destruct Hm as [food [Hfood Hm]].
  destruct (includes (toLowerCase line) (toLowerCase food)) eqn:Hinc; [|destruct Hm].
  destruct (flt (lit 3 1) _) eqn:Hk; [|destruct Hm].
  destruct Hm as [<-|[]]. unfold reported_match; cbn [im_context im_name im_category im_confidence].
  split; [exact Hl|]. split; [exact Hnf|]. split; [exists foods; split; assumption|].
  split; [exact Hinc|]. split; [reflexivity|exact Hk].
Qed.

Lemma analyze_fold_reported (text : jstr) (lines : list jstr) : forall acc,
  incl lines (receipt_lines text) ->
  Forall (reported_match text) (fst acc) ->
  Forall (reported_match text) (fst (fold_left analyze_line lines acc)).
Proof.
  induction lines as [|line lines IH]; simpl; intros [ings store] Hincl H; [exact H|].
  apply IH; [intros x Hx; apply Hincl; now right|]. unfold analyze_line. simpl in H.
  destruct (isNonFoodLine (toLowerCase line)) eqn:Hnf; simpl; [exact H|].
  apply Forall_app. split; [exact H|].
  apply findIngredientsInLine_reported; [apply Hincl; now left|exact Hnf].
Qed.

Lemma reported_not_nan (text : jstr) (l : list IngredientMatch) :
  Forall (reported_match text) l -> Forall conf_not_nan l.
Proof.
  apply Forall_impl. intros m (_ & _ & _ & _ & Hc & Hk). unfold conf_not_nan.
  rewrite Hc in *. apply nonneg_not_nan, calculateIngredientConfidence_nonneg.
Qed.

Lemma analyzeReceiptText_kept (text : jstr) :
  exists ings,
    Forall (reported_match text) ings /\
    Permutation (removeDuplicateIngredients ings) (ra_ingredients (analyzeReceiptText text)).
Proof.
  unfold analyzeReceiptText.
  destruct (fold_left analyze_line (receipt_lines text) ([], [])) as [ings store] eqn:E.
  cbn [ra_ingredients]. exists ings. split; [|apply sort_by_confidence_perm].
  change ings with (fst (ings, store)). rewrite <- E.
  apply analyze_fold_reported; [apply incl_refl|constructor].
Qed.

(** X: every ingredient the analysis reports comes from a non-empty trimmed
    line of the text that is not a non-food line, is a term of its
    category's list contained (case-insensitively) in that line, and carries
    the confidence [calculateIngredientConfidence] gives for that line,
    which is above 0.3; no two reported ingredients have the same
    lowercase name. *)
Theorem analyzeReceiptText_matches (text : jstr) :
  Forall (reported_match text) (ra_ingredients (analyzeReceiptText text)) /\
  NoDup (map match_key (ra_ingredients (analyzeReceiptText text))).
Proof.
  destruct (analyzeReceiptText_kept text) as [ings [Hr Hp]].
  destruct (removeDuplicateIngredients_spec ings (reported_not_nan _ _ Hr)) as (Hnd & Hin & _).
  split.
  - apply (Permutation_Forall Hp). apply Forall_forall. intros r Hr'.
    rewrite Forall_forall in Hr. apply Hr, Hin, Hr'.
  - eapply Permutation_NoDup; [apply Permutation_map, Hp|exact Hnd].
Qed.

Lemma flt_fle (a b : num) : is_nan a = false -> is_nan b = false -> flt a b = true -> fle a b = true.
Proof.
  intros Ha Hb H. apply flt_rank in H; try assumption. apply fle_rank; try assumption.
  revert H. rank_tac.
Qed.

Lemma insert_sorted_head (x y : IngredientMatch) (l : list IngredientMatch) :
  conf_desc y x -> HdRel conf_desc y l -> HdRel conf_desc y (insert_sorted x l).
Proof.
  intros Hyx Hl. destruct l as [|z l]; simpl; [now constructor|].
  destruct (flt f0 (sort_cmp z x)); constructor; [exact Hyx|now inversion Hl].
Qed.

Lemma insert_sorted_sorted (x : IngredientMatch) (l : list IngredientMatch) :
  kept_conf x -> Forall kept_conf l -> Sorted conf_desc l -> Sorted conf_desc (insert_sorted x l).
Proof.
  intros Hx. induction l as [|y l IH]; simpl; intros Hl Hs; [repeat constructor|].
  inversion Hl as [|? ? Hy Hl']; subst. inversion Hs as [|? ? Hs' Hhd]; subst.
  unfold kept_conf in Hx, Hy.
  destruct (kept_value_props _ _ Hx Hy) as (Hxn & _ & Hxy).
  destruct (kept_value_props _ _ Hy Hx) as (Hyn & _ & _).
  unfold sort_cmp. rewrite Hxy. destruct (flt (im_confidence y) (im_confidence x)) eqn:E.
  - constructor; [exact Hs|]. constructor. unfold conf_desc.
    apply flt_fle; assumption.
  - constructor; [apply IH; assumption|].
    apply insert_sorted_head; [|exact Hhd]. unfold conf_desc. apply flt_false_fle; assumption.
Qed.

Lemma sort_by_confidence_sorted (l : list IngredientMatch) :
  Forall kept_conf l -> Sorted conf_desc (sort_by_confidence l).
Proof.
  unfold sort_by_confidence.
  enough (forall acc, Forall kept_conf acc -> Sorted conf_desc acc -> Forall kept_conf l ->
            Sorted conf_desc (fold_left (fun acc x => insert_sorted x acc) l acc))
    by (intros Hl; apply H; auto).
  induction l as [|x l IH]; simpl; intros acc Hacc Hs Hl; [exact Hs|].
  inversion Hl; subst. apply IH; [|apply insert_sorted_sorted; assumption|assumption].
  apply (Permutation_Forall (insert_sorted_perm x acc)). constructor; assumption.
Qed.

Lemma conf_desc_trans : Relations_1.Transitive conf_desc.
Proof.
  intros a b c Hab Hbc. unfold conf_desc in *.
  assert (Hn : forall x y, fle x y = true -> is_nan x = false /\ is_nan y = false)
    by (intros [] [] H; try discriminate; auto).
  destruct (Hn _ _ Hab), (Hn _ _ Hbc). eapply fle_trans; eauto.
Qed.

(** X: the reported ingredients are in non-increasing order of confidence:
    every ingredient's confidence is at least that of each one after it. *)
Theorem analyzeReceiptText_sorted (text : jstr) :
  StronglySorted (fun a b => fle (im_confidence b) (im_confidence a) = true)
    (ra_ingredients (analyzeReceiptText text)).
Proof.
  apply (Sorted_StronglySorted conf_desc_trans).
  unfold analyzeReceiptText.
  destruct (fold_left analyze_line (receipt_lines text) ([], [])) as [ings store] eqn:E.
  cbn [ra_ingredients].
  assert (Hr : Forall (reported_match text) ings).
  { change ings with (fst (ings, store)). rewrite <- E.
    apply analyze_fold_reported; [apply incl_refl|constructor]. }
  destruct (removeDuplicateIngredients_spec ings (reported_not_nan _ _ Hr)) as (_ & Hin & _).
  apply sort_by_confidence_sorted. apply Forall_forall. intros r Hr'.
  rewrite Forall_forall in Hr. destruct (Hr r (proj1 (Hin r Hr'))) as (_ & _ & _ & _ & Hc & Hk).
  unfold kept_conf. rewrite Hc in *. apply calculateIngredientConfidence_kept, Hk.
Qed.


(** ** The OCR result *)

Lemma js_max_cases (x y : num) :
  is_nan x = false -> is_nan y = false -> js_max x y = x \/ js_max x y = y.
Proof.
  intros Hx Hy. unfold js_max. rewrite Hx, Hy. simpl.
  destruct (flt x y); [now right|]. destruct (flt y x); [now left|].
  destruct x as [[]|[]| |[] ? ?]; destruct y as [[]|[]| |[] ? ?]; auto.
Qed.

Lemma fle_not_nan (x y : num) : fle x y = true -> is_nan x = false /\ is_nan y = false.
Proof. destruct x, y; try discriminate; auto. Qed.

Lemma js_max_ge_l (x y : num) :
  is_nan x = false -> is_nan y = false -> fle x (js_max x y) = true.
Proof.
  intros Hx Hy. unfold js_max. rewrite Hx, Hy. simpl.
  destruct (flt x y) eqn:E1; [apply flt_fle; assumption|].
  destruct (flt y x) eqn:E2; [apply fle_refl, Hx|].
  assert (Hxy : fle x y = true) by (rewrite fle_flt_negb, E2 by assumption; reflexivity).
  pose proof (fle_refl x Hx).
  destruct x as [[]|[]| |[] ? ?]; destruct y as [[]|[]| |[] ? ?]; assumption.
Qed.

Lemma js_max_le (x y z : num) : fle x z = true -> fle y z = true -> fle (js_max x y) z = true.
Proof.
  intros Hx Hy. destruct (fle_not_nan _ _ Hx), (fle_not_nan _ _ Hy).
  destruct (js_max_cases x y) as [->| ->]; assumption.
Qed.

Lemma js_min_f1_le (c : num) : is_nan c = false -> fle (js_min f1 c) f1 = true.
Proof.
  intros Hc. unfold js_min. rewrite Hc. change (is_nan f1) with false. simpl.
  destruct (flt c f1) eqn:E1; [apply flt_fle; [exact Hc|reflexivity|exact E1]|].
  destruct (flt f1 c); [reflexivity|]. reflexivity.
Qed.

Lemma calculateOverallConfidence_bounds (l : list IngredientMatch) (text : jstr) :
  Forall good_match l -> (List.length l <= List.length lexicon_terms)%nat ->
  is_nonneg (calculateOverallConfidence l text) = true /\
  fle (calculateOverallConfidence l text) f1 = true.
Proof.
  intros Hg Hlen. destruct l as [|x l']; [split; reflexivity|].
  unfold calculateOverallConfidence, sum_confidence.
  cbv beta iota zeta. rewrite sum_confidence_map.
  destruct (of_nat_finite (List.length (x :: l'))) as (m & e & He).
  { simpl List.length in *. lia. }
  rewrite He.
  assert (Hs : is_nonneg (fold_left fadd (map im_confidence (x :: l')) f0) = true).
  { apply sum_nonneg; [reflexivity|]. apply Forall_map.
    revert Hg. apply Forall_impl. intros a [Ha _]. exact Ha. }
  pose proof (fdiv_nonneg _ m e Hs) as Hd.
  set (c := if _ && _ then _ else _).
  assert (Hc : is_nonneg (if Nat.ltb 10 (List.length (x :: l')) then fadd c (lit 1 1) else c) = true).
  { subst c. destruct (_ && _), (Nat.ltb 10 _); repeat apply fadd_nonneg; auto using lit_1_1_nonneg. }
  split; [apply js_min_f1_nonneg, Hc|apply js_min_f1_le, nonneg_not_nan, Hc].
Qed.

Lemma analyzeReceiptText_confidence_bounds (text : jstr) :
  is_nonneg (ra_confidence (analyzeReceiptText text)) = true /\
  fle (ra_confidence (analyzeReceiptText text)) f1 = true.
Proof.
  unfold analyzeReceiptText.
  destruct (fold_left analyze_line (receipt_lines text) ([], [])) as [ings store] eqn:E.
  cbn [ra_confidence].
  assert (Hg : Forall good_match ings).
  { change ings with (fst (ings, store)). rewrite <- E. apply analyze_fold_good. constructor. }
  destruct (kept_matches_good ings Hg) as [Hg' Hlen].
  apply calculateOverallConfidence_bounds; assumption.
Qed.

Lemma finish_ocr_ok (extractedText : jstr) (confidence : num) (r : OCRResult) :
  fle (lit 6 1) confidence = true -> fle confidence f1 = true ->
  finish_ocr extractedText confidence = Ok r ->
  ocr_text r = extractedText /\
  ocr_smartAnalysis r = Some (analyzeReceiptText extractedText) /\
  ocr_ingredients r = map im_name (ra_ingredients (analyzeReceiptText extractedText)) /\
  fle (lit 6 1) (ocr_confidence r) = true /\ fle (ocr_confidence r) f1 = true.
Proof.
  intros Hlo Hhi H. unfold finish_ocr in H. injection H as <-.
  cbn [ocr_text ocr_smartAnalysis ocr_ingredients ocr_confidence].
  destruct (analyzeReceiptText_confidence_bounds extractedText) as [Hn Hle].
  destruct (fle_not_nan _ _ Hlo) as [H6 Hcn].
  split; [reflexivity|]. split; [reflexivity|]. split; [reflexivity|]. split.
  - refine (fle_trans _ confidence _ H6 Hcn _ Hlo _).
    + unfold js_max. rewrite Hcn, (nonneg_not_nan _ Hn). simpl.
      destruct (flt _ _); [apply nonneg_not_nan, Hn|].
      destruct (flt _ _); [exact Hcn|]. destruct confidence as [[]|[]| |[] ? ?]; try exact Hcn;
      destruct (ra_confidence _) as [[]|[]| |[] ? ?]; reflexivity.
    + apply js_max_ge_l; [exact Hcn|apply nonneg_not_nan, Hn].
  - apply js_max_le; assumption.
Qed.

(** X: whenever [extractTextFromReceipt] succeeds with a method other than
    the mock one, the result carries the smart analysis of its own text,
    its ingredient names are the analysis's ingredient names in order, and
    its confidence lies between 0.6 and 1. *)
Theorem extractTextFromReceipt_ok (env : OcrEnv) (method : OCRMethod) (imageUri : jstr)
    (r : OCRResult) :
  method <> Mock -> extractTextFromReceipt env method imageUri = Ok r ->
  ocr_smartAnalysis r = Some (analyzeReceiptText (ocr_text r)) /\
  ocr_ingredients r = map im_name (ra_ingredients (analyzeReceiptText (ocr_text r))) /\
  fle (lit 6 1) (ocr_confidence r) = true /\ fle (ocr_confidence r) f1 = true.
Proof.
  intros Hm H.
  assert (Hfin : exists t c, fle (lit 6 1) c = true /\ fle c f1 = true /\ finish_ocr t c = Ok r).
  { destruct method as [| | | |m]; simpl in H; [congruence| | | |discriminate].
    - destruct (env_tesseract env imageUri); do 2 eexists; (split; [|split]); try exact H; reflexivity.
    - destruct (env_visionConfigured env); [destruct (env_vision env imageUri); [|discriminate]|];
      do 2 eexists; (split; [|split]); try exact H; reflexivity.
    - do 2 eexists; (split; [|split]); try exact H; reflexivity. }
  destruct Hfin as (t & c & Hlo & Hhi & Hf).
  destruct (finish_ocr_ok t c r Hlo Hhi Hf) as (-> & Hrest). exact Hrest.
Qed.

Lemma extractTextFromReceipt_ok_witness :
  exists r,
    extractTextFromReceipt (offline_env (mkClock (js "1/2/2025") (js "10:00"))) Simple (js "file.jpg") = Ok r /\
    fle (lit 6 1) (ocr_confidence r) = true.
Proof.
  eexists. split; [reflexivity|].
  exact (proj1 (proj2 (proj2 (extractTextFromReceipt_ok (offline_env (mkClock (js "1/2/2025") (js "10:00")))
                                        Simple (js "file.jpg") _ ltac:(discriminate) eq_refl)))).
Defined.

(** ** Keyword extraction *)

Lemma existsb_jstr_false (x : jstr) (l : list jstr) : existsb (jstr_eqb x) l = false -> ~ In x l.
Proof.
  intros H Hin. assert (existsb (jstr_eqb x) l = true) by (apply existsb_exists; exists x; split; [exact Hin|apply jstr_eqb_refl]).
  congruence.
Qed.

Lemma push_new_nodup (l : list jstr) (x : jstr) : NoDup l -> NoDup (push_new l x).
Proof.
  intros Hnd. unfold push_new. destruct (existsb (jstr_eqb x) l) eqn:E; [exact Hnd|].
  apply existsb_jstr_false in E. apply NoDup_app; [exact Hnd|repeat constructor; simpl; tauto|].
  intros y Hy [<-|[]]. contradiction.
Qed.

Lemma push_new_In (l : list jstr) (x y : jstr) : In y (push_new l x) <-> In y l \/ y = x.
Proof.
  unfold push_new. destruct (existsb (jstr_eqb x) l) eqn:E.
  - apply existsb_jstr_In in E. split; [tauto|]. intros [H| ->]; assumption.
  - rewrite in_app_iff. simpl. split; intros [H|H]; auto; destruct H as [H|[]]; auto.
Qed.

Lemma fold_push_new_nodup (xs : list jstr) : forall acc,
  NoDup acc -> NoDup (fold_left push_new xs acc).
Proof.
  induction xs as [|x xs IH]; simpl; intros acc H; [exact H|]. apply IH, push_new_nodup, H.
Qed.

Lemma fold_push_new_In (xs : list jstr) : forall acc y,
  In y (fold_left push_new xs acc) <-> In y acc \/ In y xs.
Proof.
  induction xs as [|x xs IH]; simpl; intros acc y; [tauto|].
  rewrite IH, push_new_In. intuition (subst; auto).
Qed.

Lemma keyword_fold_nodup (lowerText : jstr) (keywords : list jstr) : forall acc,
  NoDup acc ->
  NoDup (fold_left (fun ings keyword =>
      if includes lowerText (toLowerCase keyword)
      then push_new ings (capitalize_words keyword) else ings) keywords acc).
Proof.
  induction keywords as [|kw kws IH]; simpl; intros acc H; [exact H|].
  apply IH. destruct (includes _ _); [apply push_new_nodup|]; exact H.
Qed.

(** X: the ingredient list [extractIngredients] returns never contains the
    same string twice. *)
Theorem extractIngredients_nodup (text : jstr) : NoDup (extractIngredients text).
Proof.
  unfold extractIngredients.
  pose proof (keyword_fold_nodup (toLowerCase text) ingredientKeywords [] (NoDup_nil _)) as Hk.
  destruct (exec_first ingredientsListPattern (toLowerCase text)) as [[? [l|]]|];
    [apply fold_push_new_nodup|..]; exact Hk.
Qed.

(** ** Unit normalisation *)

Lemma unitMap_values_fixed (k v : jstr) : In (k, v) unitMap -> normalizeUnit (UStr v) = UStr v.
Proof.
  intros H. repeat (destruct H as [H|H]; [injection H as <- <-; reflexivity|]). destruct H.
Qed.

(** X: every string [normalizeUnit] returns is left unchanged by a second
    normalisation. *)
Theorem normalizeUnit_string_fixed (unit : UnitVal) (s : jstr) :
  normalizeUnit unit = UStr s -> normalizeUnit (UStr s) = UStr s.
Proof.
  intros H. destruct unit as [u|k].
  - pose proof H as H0. unfold normalizeUnit in H.
    destruct (is_empty u); [injection H as <-; reflexivity|].
    unfold unitMap_lookup in H.
    destruct (map_get (toLowerCase u) unitMap) as [v|] eqn:G.
    + destruct (is_empty v); injection H as <-; [exact H0|].
      apply map_get_In in G. eapply unitMap_values_fixed, G.
    + destruct (_ || _); [discriminate|]. injection H as <-. exact H0.
  - injection H as <-. reflexivity.
Qed.

Lemma normalizeUnit_string_fixed_witness :
  normalizeUnit (UStr (js "Pounds")) = UStr (js "lb") /\ normalizeUnit (UStr (js "lb")) = UStr (js "lb").
Proof. split; [reflexivity|apply (normalizeUnit_string_fixed (UStr (js "Pounds"))); reflexivity]. Defined.

(** ** Merging duplicates *)

Lemma merge_step_eq (merged : list (jstr * IngredientItem)) (ingredient : IngredientItem) :
  merge_step merged ingredient =
  match map_get (merge_key ingredient) merged with
  | Some existing => map_set (merge_key ingredient) (merge_into existing ingredient) merged
  | None => map_set (merge_key ingredient) ingredient merged
  end.
Proof. reflexivity. Qed.

Lemma merge_keys_snoc (l : list IngredientItem) (x : IngredientItem) :
  merge_keys (l ++ [x]) = push_new (merge_keys l) (merge_key x).
Proof. unfold merge_keys. rewrite map_app, fold_left_app. reflexivity. Qed.

Lemma merge_keys_In (l : list IngredientItem) (k : jstr) :
  In k (merge_keys l) <-> exists i, In i l /\ merge_key i = k.
Proof.
  unfold merge_keys. rewrite fold_push_new_In, in_map_iff. simpl. firstorder.
Qed.

Lemma merge_group_snoc_other (l : list IngredientItem) (x : IngredientItem) (k : jstr) :
  merge_key x <> k -> merge_group (l ++ [x]) k = merge_group l k.
Proof.
  intros Hne. unfold merge_group. rewrite filter_app. simpl.
  destruct (jstr_eqb (merge_key x) k) eqn:E; [apply jstr_eqb_eq in E; contradiction|].
  rewrite app_nil_r. reflexivity.
Qed.

Lemma merge_group_snoc_same (l : list IngredientItem) (x : IngredientItem) :
  merge_group (l ++ [x]) (merge_key x) =
  match merge_group l (merge_key x) with
  | [] => [x]
  | existing :: _ => [merge_into existing x]
  end.
Proof.
  unfold merge_group. rewrite filter_app. simpl. rewrite jstr_eqb_refl.
  destruct (filter _ l) as [|g gs]; simpl; [reflexivity|].
  rewrite fold_left_app. reflexivity.
Qed.

Lemma merge_fold_inv (l : list IngredientItem) : merge_inv l (fold_left merge_step l []).
Proof.
  induction l as [|x l IH] using rev_ind; [split; [reflexivity|constructor]|].
  destruct IH as [Hk Hg]. rewrite fold_left_app. cbn [fold_left].
  set (m := fold_left merge_step l []) in *.
  assert (Hnd : NoDup (map fst m)) by (rewrite Hk; apply fold_push_new_nodup; constructor).
  rewrite merge_step_eq. rewrite Forall_forall in Hg.
  destruct (map_get (merge_key x) m) as [e|] eqn:G.
  - pose proof (map_get_In _ _ _ G) as Hin.
    assert (Hkin : In (merge_key x) (map fst m)) by (apply in_map_iff; exists (merge_key x, e); auto).
    split.
    + rewrite map_set_fst_in by exact Hkin. rewrite merge_keys_snoc, <- Hk. unfold push_new.
      destruct (existsb _ _) eqn:E; [reflexivity|]. apply existsb_jstr_false in E. contradiction.
    + apply Forall_forall. intros [k' v'] Hkv. apply In_map_set in Hkv; [|exact Hnd].
      destruct Hkv as [[-> ->]|[Hne Hkv]]; simpl.
      * rewrite merge_group_snoc_same. pose proof (Hg _ Hin) as He. simpl in He. rewrite He. reflexivity.
      * rewrite merge_group_snoc_other by congruence. apply (Hg _ Hkv).
  - assert (Hkin : ~ In (merge_key x) (map fst m)) by (apply map_get_None, G).
    split.
    + rewrite map_set_fst_notin by exact Hkin. rewrite merge_keys_snoc, <- Hk. unfold push_new.
      destruct (existsb _ _) eqn:E; [|reflexivity]. apply existsb_jstr_In in E. contradiction.
    + apply Forall_forall. intros [k' v'] Hkv. apply In_map_set in Hkv; [|exact Hnd].
      destruct Hkv as [[-> ->]|[Hne Hkv]]; simpl.
      * rewrite merge_group_snoc_same.
        assert (Hempty : merge_group l (merge_key x) = []).
        { unfold merge_group. destruct (filter _ l) as [|g gs] eqn:F; [reflexivity|].
          exfalso. apply Hkin. rewrite Hk. apply merge_keys_In. exists g.
          assert (Hgin : In g (filter (fun i => jstr_eqb (merge_key i) (merge_key x)) l))
            by (rewrite F; now left).
          apply filter_In in Hgin. destruct Hgin as [Hgl Hge]. apply jstr_eqb_eq in Hge. auto. }
        rewrite Hempty. reflexivity.
      * rewrite merge_group_snoc_other by congruence. apply (Hg _ Hkv).
Qed.

Lemma map_snd_groups (l : list IngredientItem) (m : list (jstr * IngredientItem)) :
  Forall (fun kv => merge_group l (fst kv) = [snd kv]) m ->
  map snd m = flat_map (merge_group l) (map fst m).
Proof.
  induction m as [|[k v] m IH]; simpl; intros H; [reflexivity|].
  inversion H as [|? ? Hkv Hm]; subst. simpl in Hkv. rewrite Hkv. simpl. f_equal. apply IH, Hm.
Qed.

Lemma mergeDuplicates_groups (l : list IngredientItem) :
  mergeDuplicates l = flat_map (merge_group l) (merge_keys l).
Proof.
  destruct (merge_fold_inv l) as [Hk Hg]. unfold mergeDuplicates.
  rewrite <- Hk. apply map_snd_groups, Hg.
Qed.

Lemma merge_into_fold_fields (gs : list IngredientItem) : forall g,
  let r := fold_left merge_into gs g in
  it_id r = it_id g /\ it_name r = it_name g /\ it_unit r = it_unit g /\
  it_isSelected r = it_isSelected g /\ it_source r = it_source g /\
  it_quantity r = fold_left fadd (map it_quantity gs) (it_quantity g).
Proof.
  induction gs as [|x gs IH]; simpl; intros g; [repeat split|].
  destruct (IH (merge_into g x)) as (H1 & H2 & H3 & H4 & H5 & H6).
  repeat split; assumption.
Qed.

(** X: [mergeDuplicates] returns one item per distinct key (trimmed
    lowercase name, "_", unit), in the order in which the keys first occur;
    the item for a key has the id, name, unit, selection and source of the
    first item with that key, and as quantity the left-to-right sum of the
    quantities of all items with that key. *)
Theorem mergeDuplicates_grouping (l : list IngredientItem) :
  map merge_key (mergeDuplicates l) = merge_keys l /\
  forall r, In r (mergeDuplicates l) ->
    exists g gs,
      filter (fun i => jstr_eqb (merge_key i) (merge_key r)) l = g :: gs /\
      it_id r = it_id g /\ it_name r = it_name g /\ it_unit r = it_unit g /\
      it_isSelected r = it_isSelected g /\ it_source r = it_source g /\
      it_quantity r = fold_left fadd (map it_quantity gs) (it_quantity g).
Proof.
  rewrite mergeDuplicates_groups.
  assert (Hgroup : forall k r, In r (merge_group l k) ->
    exists g gs, filter (fun i => jstr_eqb (merge_key i) k) l = g :: gs /\ r = fold_left merge_into gs g).
  { intros k r. unfold merge_group. destruct (filter _ l) as [|g gs]; [intros []|].
    intros [<-|[]]. eauto. }
  assert (Hkey : forall k r, In r (merge_group l k) -> merge_key r = k).
  { intros k r Hr. destruct (Hgroup k r Hr) as (g & gs & F & ->).
    destruct (merge_into_fold_fields gs g) as (_ & Hn & Hu & _).
    assert (Hg : In g (filter (fun i => jstr_eqb (merge_key i) k) l)) by (rewrite F; now left).
    apply filter_In in Hg. destruct Hg as [_ Hg]. apply jstr_eqb_eq in Hg.
    rewrite <- Hg. unfold merge_key. rewrite Hn, Hu. reflexivity. }
  split.
  - assert (Hne : forall k, In k (merge_keys l) -> exists r, merge_group l k = [r]).
    { intros k Hk. apply merge_keys_In in Hk. destruct Hk as [i [Hi Hik]].
      unfold merge_group. destruct (filter _ l) as [|g gs] eqn:F; [|eauto].
      exfalso. assert (Hf : In i (filter (fun i => jstr_eqb (merge_key i) k) l))
        by (apply filter_In; split; [exact Hi|apply jstr_eqb_eq, Hik]).
      rewrite F in Hf. destruct Hf. }
    induction (merge_keys l) as [|k ks IH]; simpl; [reflexivity|].
    destruct (Hne k (or_introl eq_refl)) as [r Hr]. rewrite Hr. simpl.
    rewrite (Hkey k r) by (rewrite Hr; now left). f_equal. apply IH.
    intros k' Hk'. apply Hne. now right.
  - intros r Hr. apply in_flat_map in Hr. destruct Hr as [k [_ Hr]].
    pose proof (Hkey k r Hr) as Hk. destruct (Hgroup k r Hr) as (g & gs & F & ->).
    exists g, gs. rewrite Hk. split; [exact F|]. apply merge_into_fold_fields.
Qed.

(** ** The Google Vision path *)

(** X: [isGoogleVisionConfigured] holds for the key [getGoogleVisionApiKey]
    picks exactly when the Expo constant is a usable key (non-empty and
    neither placeholder) or the environment key
    [GOOGLE_VISION_API_KEY || EXPO_PUBLIC_GOOGLE_VISION_API_KEY] is; in
    particular a [GOOGLE_VISION_API_KEY] left at the "..._HERE" placeholder
    hides any [EXPO_PUBLIC_GOOGLE_VISION_API_KEY]. *)
Theorem isGoogleVisionConfigured_key (constantsApiKey envGoogle envExpo : option jstr) :
  isGoogleVisionConfigured (getGoogleVisionApiKey constantsApiKey envGoogle envExpo) =
    key_usable constantsApiKey || key_usable (or_str envGoogle envExpo) /\
  isGoogleVisionConfigured (getGoogleVisionApiKey constantsApiKey (Some placeholderKeyHere) envExpo) =
    key_usable constantsApiKey.
Proof.
  assert (Husable : forall k, key_usable k = true -> isGoogleVisionConfigured (key_value k) = true).
  { intros [k|] H; [|discriminate]. unfold key_usable in H. unfold isGoogleVisionConfigured, key_value.
    apply andb_prop in H as [H12 _]. apply andb_prop in H12 as [H1 H2].
    apply negb_true_iff in H2. rewrite H2. destruct k; [discriminate H1|reflexivity]. }
  assert (Hkey : forall e, isGoogleVisionConfigured (getGoogleVisionApiKey constantsApiKey envGoogle e) =
                           key_usable constantsApiKey || key_usable (or_str envGoogle e)).
  { intros e. unfold getGoogleVisionApiKey.
    destruct (key_usable constantsApiKey) eqn:E1; [apply Husable, E1|].
    destruct (key_usable (or_str envGoogle e)) eqn:E2; [apply Husable, E2|]. reflexivity. }
  split; [apply Hkey|].
  clear Hkey. unfold getGoogleVisionApiKey.
  destruct (key_usable constantsApiKey) eqn:E1; [apply Husable, E1|]. reflexivity.
Qed.

(** X: when Google Vision is configured and the Vision API answers with an
    HTTP error, [extractTextFromReceipt] fails with the status and the
    response text, without falling back to the simulated OCR. *)
Theorem extractTextFromReceipt_vision_error (env : OcrEnv) (imageUri : jstr)
    (status : nat) (errorText : jstr) (body : VisionBody) :
  env_visionConfigured env = true ->
  env_vision env imageUri = callGoogleVisionAPI (FetchResponse false status errorText body) ->
  extractTextFromReceipt env GoogleVision imageUri =
    Err (js "Failed to extract text from image: Vision API error: " ++ show_nat status ++
         js " - " ++ errorText).
Proof. intros Hc Hv. simpl. rewrite Hc, Hv. reflexivity. Qed.

Lemma extractTextFromReceipt_vision_error_witness :
  extractTextFromReceipt
    (mkEnv (mkClock (js "1/2/2025") (js "10:00")) true
       (fun _ => callGoogleVisionAPI (FetchResponse false 403 (js "denied") (BodyJson None)))
       (fun _ => Err (js "offline")))
    GoogleVision (js "file.jpg") =
  Err (js "Failed to extract text from image: Vision API error: 403 - denied").
Proof.
  rewrite (extractTextFromReceipt_vision_error _ (js "file.jpg") 403 (js "denied") (BodyJson None));
    reflexivity.
Defined.

(** X: when Google Vision is configured and the Vision API answers
    successfully without a text annotation, [extractTextFromReceipt]
    succeeds with an empty text, no ingredients and confidence 0.9. *)
Theorem extractTextFromReceipt_vision_no_text (env : OcrEnv) (imageUri : jstr)
    (status : nat) (bodyText : jstr) :
  env_visionConfigured env = true ->
  env_vision env imageUri = callGoogleVisionAPI (FetchResponse true status bodyText (BodyJson None)) ->
  exists r, extractTextFromReceipt env GoogleVision imageUri = Ok r /\
    ocr_text r = [] /\ ocr_ingredients r = [] /\ ocr_confidence r = lit 9 1.
Proof.
  intros Hc Hv. simpl. rewrite Hc, Hv. simpl.
  eexists. split; [reflexivity|]. split; [reflexivity|]. split; vm_compute; reflexivity.
Qed.

Lemma extractTextFromReceipt_vision_no_text_witness :
  exists r,
    extractTextFromReceipt
      (mkEnv (mkClock (js "1/2/2025") (js "10:00")) true
         (fun _ => callGoogleVisionAPI (FetchResponse true 200 (js "{}") (BodyJson None)))
         (fun _ => Err (js "offline")))
      GoogleVision (js "file.jpg") = Ok r /\
    ocr_text r = [] /\ ocr_ingredients r = [] /\ ocr_confidence r = lit 9 1.
Proof.
  apply (extractTextFromReceipt_vision_no_text _ (js "file.jpg") 200 (js "{}")); reflexivity.
Defined.

(** ** The receipt total *)

Lemma read_digits_nonneg (s : jstr) : forall acc, (0 <= acc)%Z -> (0 <= fst (read_digits s acc))%Z.
Proof.
  induction s as [|x s IH]; intros acc Hacc; simpl; [exact Hacc|].
  destruct (is_digit x); simpl; [apply IH; lia|exact Hacc].
Qed.

Lemma price_cents_nonneg (p : jstr) : (0 <= price_cents p)%Z.
Proof.
  unfold price_cents. pose proof (read_digits_nonneg (remove_first 36 p) 0 (Z.le_refl 0)) as H.
  destruct (read_digits (remove_first 36 p) 0) as [ip rest]. simpl in H.
  repeat match goal with
         | |- context [match ?x with _ => _ end] => destruct x
         end; lia.
Qed.

Lemma round_ratio_nonneg (n d : Z) : (0 <= n)%Z -> (0 < d)%Z -> is_nonneg (round_ratio n d) = true.
Proof.
  intros Hn Hd. unfold round_ratio. destruct n as [|n|n]; [reflexivity| |lia].
  unfold SFdiv_core_binary.
  match goal with |- context [Z.div_eucl ?a ?b] =>
    assert (Hm : (0 <= a)%Z);
    [|generalize (Z.div_pos a b Hm Hd); unfold Z.div; destruct (Z.div_eucl a b) as [q r]; intro Hq]
  end.
  - match goal with |- (0 <= match ?s with _ => _ end)%Z => destruct s end;
      [lia| apply Z.shiftl_nonneg; lia|lia].
  - apply binary_round_aux_nonneg. exact Hq.
Qed.

Lemma parseFloat_price_nonneg (p : jstr) : is_nonneg (parseFloat_price p) = true.
Proof. apply round_ratio_nonneg; [apply price_cents_nonneg|lia]. Qed.

Lemma js_max_ge_r (x y : num) :
  is_nan x = false -> is_nan y = false -> fle y (js_max x y) = true.
Proof.
  intros Hx Hy. unfold js_max. rewrite Hx, Hy. simpl.
  destruct (flt x y) eqn:E1; [apply fle_refl, Hy|].
  destruct (flt y x) eqn:E2; [apply flt_fle; assumption|].
  assert (Hyx : fle y x = true) by (apply flt_false_fle; assumption).
  pose proof (fle_refl y Hy).
  destruct x as [[]|[]| |[] ? ?]; destruct y as [[]|[]| |[] ? ?]; assumption.
Qed.

Lemma fold_js_max_spec (l : list num) : forall m,
  is_nan m = false -> Forall (fun x => is_nan x = false) l ->
  let r := fold_left js_max l m in
  (r = m \/ In r l) /\ fle m r = true /\ forall q, In q l -> fle q r = true.
Proof.
  induction l as [|p ps IH]; intros m Hm Hl; simpl.
  - split; [now left|split; [apply fle_refl, Hm|tauto]].
  - inversion Hl as [|? ? Hp Hps]; subst.
    assert (Hmp : is_nan (js_max m p) = false)
      by (destruct (js_max_cases m p Hm Hp) as [->| ->]; assumption).
    destruct (IH (js_max m p) Hmp Hps) as (Hr & Hge & Hall).
    set (r := fold_left js_max ps (js_max m p)) in *.
    assert (Hrn : is_nan r = false) by exact (proj2 (fle_not_nan _ _ Hge)).
    split; [|split].
    + destruct Hr as [Hr|Hr]; [|right; now right].
      destruct (js_max_cases m p Hm Hp) as [E|E]; rewrite E in Hr; [now left|right; now left].
    + exact (fle_trans _ _ _ Hm Hmp Hrn (js_max_ge_l m p Hm Hp) Hge).
    + intros q [<-|Hq]; [|auto].
      exact (fle_trans _ _ _ Hp Hmp Hrn (js_max_ge_r m p Hm Hp) Hge).
Qed.

Lemma nonneg_not_le_neg_inf (x : num) : is_nonneg x = true -> fle x (S754_infinity true) = false.
Proof. destruct x as [[]|[]| |[] ? ?]; try discriminate; reflexivity. Qed.

(** X: the total amount of an analysis is present exactly when a price was
    found; it is then ["$"] followed by [toFixed(2)] of the largest of the
    found prices as [parseFloat] reads them (one of these prices, at least
    every other one). *)
Theorem analyzeReceiptText_totalAmount (text : jstr) :
  (ra_totalAmount (analyzeReceiptText text) = None <-> ra_prices (analyzeReceiptText text) = []) /\
  forall s, ra_totalAmount (analyzeReceiptText text) = Some s ->
    exists p, In p (ra_prices (analyzeReceiptText text)) /\
      s = js "$" ++ toFixed2 (parseFloat_price p) /\
      forall q, In q (ra_prices (analyzeReceiptText text)) ->
        fle (parseFloat_price q) (parseFloat_price p) = true.
Proof.
  unfold analyzeReceiptText. destruct (fold_left analyze_line _ _) as [ings store].
  cbn [ra_totalAmount ra_prices]. unfold totalAmount_of.
  destruct (match_all pricePattern text) as [|p0 ps] eqn:Eps; [split; [tauto|discriminate]|].
  rewrite <- Eps. split; [split; [discriminate|intro E; rewrite Eps in E; discriminate]|].
  intros s Hs. injection Hs as <-.
  assert (Hl : Forall (fun x => is_nan x = false) (map parseFloat_price (match_all pricePattern text))).
  { apply Forall_forall. intros x Hx. apply in_map_iff in Hx. destruct Hx as (q & <- & _).
    apply nonneg_not_nan, parseFloat_price_nonneg. }
  destruct (fold_js_max_spec _ (S754_infinity true) eq_refl Hl) as (Hr & _ & Hall).
  unfold Math_max.
  set (r := fold_left js_max _ _) in *.
  assert (Hp0 : In p0 (match_all pricePattern text)) by (rewrite Eps; now left).
  destruct Hr as [Hr|Hr].
  - exfalso. pose proof (Hall (parseFloat_price p0) (in_map _ _ _ Hp0)) as H.
    rewrite Hr, nonneg_not_le_neg_inf in H by apply parseFloat_price_nonneg. discriminate.
  - apply in_map_iff in Hr. destruct Hr as (p & Ep & Hp).
    exists p. split; [exact Hp|split; [now rewrite Ep|]].
    intros q Hq. rewrite Ep. apply Hall, in_map, Hq.
Qed.

(** Large amounts go through doubles: [2^53 + 1] reads as [2^53], and from
    [10^21] on [toFixed] falls back to the exponential form. *)
Lemma totalAmount_large_prices :
  ra_totalAmount (analyzeReceiptText (js "Total $9007199254740993")) = Some (js "$9007199254740992.00") /\
  ra_totalAmount (analyzeReceiptText (js "Total $1000000000000000000000")) = Some (js "$1e+21") /\
  ra_totalAmount (analyzeReceiptText (js "Total $41.80")) = Some (js "$41.80").
Proof. split; [|split]; vm_compute; reflexivity. Qed.

(** ** The selection count *)

Lemma toggle_count (id : jstr) (c : bool) (items : list IngredientItem) (x : IngredientItem) :
  NoDup (map it_id items) -> In x items -> it_id x = id ->
  List.length (filter it_isSelected
    (map (fun i => if jstr_eqb (it_id i) id then apply_update (SetSelected c) i else i) items)) +
  (if it_isSelected x then 1 else 0) =
  List.length (filter it_isSelected items) + (if c then 1 else 0).
Proof.
  induction items as [|y items IH]; intros Hnd Hx Hid; [destruct Hx|].
  cbn [map] in Hnd |- *. apply NoDup_cons_iff in Hnd as [Hnot Hnd'].
  destruct Hx as [->|Hx].
  - subst id. rewrite jstr_eqb_refl.
    assert (Hrest : map (fun i => if jstr_eqb (it_id i) (it_id x) then apply_update (SetSelected c) i else i) items = items).
    { rewrite <- (map_id items) at 2. apply map_ext_in. intros z Hz.
      destruct (jstr_eqb (it_id z) (it_id x)) eqn:E; [|reflexivity].
      apply jstr_eqb_eq in E. exfalso. apply Hnot. rewrite <- E. apply in_map, Hz. }
    rewrite Hrest. cbn [filter apply_update it_isSelected].
    destruct c, (it_isSelected x); cbn [List.length]; lia.
  - destruct (jstr_eqb (it_id y) id) eqn:E.
    + apply jstr_eqb_eq in E. exfalso. apply Hnot. rewrite E, <- Hid. apply in_map, Hx.
    + specialize (IH Hnd' Hx Hid). cbn [filter]. destruct (it_isSelected y); cbn [List.length]; lia.
Qed.

(** X: when ids are distinct, toggling the item with a given id changes the
    number of selected items by exactly one: down by one if it was
    selected, up by one otherwise. *)
Theorem toggleSelection_count (id : jstr) (st : ModalState) (x : IngredientItem) :
  NoDup (map it_id (st_ingredients st)) -> In x (st_ingredients st) -> it_id x = id ->
  List.length (filter it_isSelected (st_ingredients (toggleSelection id st))) =
  if it_isSelected x
  then List.length (filter it_isSelected (st_ingredients st)) - 1
  else List.length (filter it_isSelected (st_ingredients st)) + 1.
Proof.
  intros Hnd Hx Hid. unfold toggleSelection, updateIngredient. cbn [st_ingredients].
  destruct (find (fun i => jstr_eqb (it_id i) id) (st_ingredients st)) as [y|] eqn:Ef.
  - apply find_some in Ef. destruct Ef as [Hy Ey]. apply jstr_eqb_eq in Ey.
    assert (x = y) as <- by (apply (NoDup_map_same it_id (st_ingredients st)); congruence).
    pose proof (toggle_count id (negb (it_isSelected x)) _ x Hnd Hx Hid) as H.
    destruct (it_isSelected x); simpl in H |- *; lia.
  - exfalso. pose proof (find_none _ _ Ef x Hx) as E. simpl in E. rewrite Hid, jstr_eqb_refl in E.
    discriminate.
Qed.

Lemma toggleSelection_count_witness :
  NoDup (map it_id (st_ingredients (addNewItem modal_initial))) /\
  In (mkItem (js "manual-1") [] f1 (UStr (js "ea")) true Manual None) (st_ingredients (addNewItem modal_initial)) /\
  List.length (filter it_isSelected (st_ingredients (toggleSelection (js "manual-1") (addNewItem modal_initial)))) = 0%nat.
Proof.
  split; [repeat constructor; simpl; tauto|]. split; [now left|].
  exact (toggleSelection_count (js "manual-1") (addNewItem modal_initial)
           (mkItem (js "manual-1") [] f1 (UStr (js "ea")) true Manual None)
           ltac:(repeat constructor; simpl; tauto) (or_introl eq_refl) eq_refl).
Defined.

(** ** Where extracted ingredients come from *)

Lemma fold_push_new_Forall (P : jstr -> Prop) (xs acc : list jstr) :
  Forall P acc -> Forall P xs -> Forall P (fold_left push_new xs acc).
Proof.
  intros Ha Hx. apply Forall_forall. intros y Hy. apply fold_push_new_In in Hy.
  rewrite Forall_forall in Ha, Hx. destruct Hy; auto.
Qed.

Lemma keyword_fold_from (text : jstr) (keywords : list jstr) : forall acc,
  incl keywords ingredientKeywords ->
  Forall (extracted_from text) acc ->
  Forall (extracted_from text) (fold_left (fun ings keyword =>
      if includes (toLowerCase text) (toLowerCase keyword)
      then push_new ings (capitalize_words keyword) else ings) keywords acc).
Proof.
  induction keywords as [|kw kws IH]; simpl; intros acc Hincl H; [exact H|].
  apply IH; [intros y Hy; apply Hincl; now right|].
  destruct (includes (toLowerCase text) (toLowerCase kw)) eqn:E; [|exact H].
  apply Forall_forall. intros y Hy. apply push_new_In in Hy. destruct Hy as [Hy| ->].
  - rewrite Forall_forall in H. auto.
  - left. exists kw. split; [apply Hincl; now left|auto].
Qed.

(** X: every string [extractIngredients] returns is either a keyword of
    its list found (case-insensitively) in the text, with each word
    capitalised, or an item of the list that the first match of
    [/ingredients?[:\s]+(.*?)(?:\n|$)/i] captures in the lowercased text,
    split at the separators and cleaned (trimmed, a leading ordinal and the
    parenthesised parts removed), with more than two characters. *)
Theorem extractIngredients_source (text : jstr) :
  Forall (extracted_from text) (extractIngredients text).
Proof.
  unfold extractIngredients.
  pose proof (keyword_fold_from text ingredientKeywords [] (incl_refl _) (Forall_nil _)) as Hk.
  destruct (exec_first ingredientsListPattern (toLowerCase text)) as [[m [l|]]|] eqn:Ex; try exact Hk.
  apply fold_push_new_Forall; [exact Hk|].
  apply Forall_forall. intros y Hy. apply filter_In in Hy. destruct Hy as [Hin Hy].
  right. exists m, l. split; [exact Ex|split; [exact Hin|apply Nat.ltb_lt, Hy]].
Qed.

(** ** The range of a match confidence *)

Lemma conf_values_le_1 : forallb (fun c => fle c f1) conf_values = true.
Proof. vm_compute. reflexivity. Qed.

(** X: [calculateIngredientConfidence] always returns a number between 0
    and 1 (never NaN, never negative, never above 1). *)
Theorem calculateIngredientConfidence_range (food line category : jstr) :
  is_nonneg (calculateIngredientConfidence food line category) = true /\
  fle (calculateIngredientConfidence food line category) f1 = true.
Proof.
  split; [apply calculateIngredientConfidence_nonneg|].
  apply (forallb_In (fun c => fle c f1) conf_values); [exact conf_values_le_1|].
  rewrite calc_conf_formula. apply conf_formula_in_values.
  pose proof (nonFoodWordsInLine_length (toLowerCase line)) as H.
  rewrite NON_FOOD_WORDS_length in H. exact H.
Qed.
